(** * Referral bot: attribution and goal notification over the [users] table

    Shallow embedding of [referral_bot.py].  The SQLite table [users] is a
    finite map from [user_id] (the INTEGER PRIMARY KEY) to the remaining
    three columns.  Every database function of the program opens its own
    connection ([async with aiosqlite.connect(DB_FILE) as db]), works on the
    connection's pending transaction and publishes it with [db.commit()];
    leaving the [async with] block closes the connection, which drops
    whatever was not committed.  Exceptions are modelled by an outcome type,
    storage failures by a per-call fault plan, and the Telegram side by the
    list of chat ids [bot.send_message] was called with. *)

From stdpp Require Import base gmap list.
From Stdlib Require Import ZArith Lia.

(** ** Data model *)

(** [REFERRAL_GOAL = 10] *)
Definition REFERRAL_GOAL : Z := 10.

(** One row of [users], without its key [user_id]:
    [invited_by INTEGER] (NULL is [None]),
    [referrals INTEGER DEFAULT 0],
    [goal_achieved_notified INTEGER DEFAULT 0]. *)
Record Row := mkRow {
  invited_by : option Z;
  referrals : Z;
  goal_achieved_notified : Z
}.

(** The row [INSERT ... (user_id) VALUES (?)] creates: every other column
    takes its declared default. *)
Definition default_row : Row :=
  {| invited_by := None; referrals := 0; goal_achieved_notified := 0 |}.

(** What persists between calls: the committed content of the table and the
    chat ids [bot.send_message] has been called with, latest first. *)
Record World := mkWorld {
  users : gmap Z Row;
  sent : list Z
}.

(** An open connection: [disk] is the committed table, [txn] the table as
    the connection sees it (its uncommitted writes included). *)
Record Conn := mkConn {
  disk : gmap Z Row;
  txn : gmap Z Row;
  outbox : list Z
}.

(** A call either returns a value or raises. *)
Inductive outcome (A : Type) : Type :=
  | Returns (a : A)
  | Raises.
Arguments Returns {A} a.
Arguments Raises {A}.

(** Fault plan of one call: [f k = true] when the [k]-th storage operation
    of that call ([db.execute] or [db.commit], in program order) raises. *)
Definition faults : Type := nat → bool.

Definition no_fault : faults := λ _, false.

(** ** The connection monad *)

Definition Act (A : Type) : Type := Conn → outcome A * Conn.

Definition ret {A} (a : A) : Act A := λ c, (Returns a, c).

Definition bind {A B} (m : Act A) (k : A → Act B) : Act B :=
  λ c, match m c with
       | (Returns a, c') => k a c'
       | (Raises, c') => (Raises, c')
       end.

Notation "'let!' x ':=' m 'in' k" := (bind m (λ x, k))
  (at level 10, x name, m at level 100, k at level 200, only parsing).
Notation "m ;;; k" := (bind m (λ _, k))
  (at level 100, right associativity, only parsing).

(** [await db.execute(stmt)] for a statement that writes. *)
Definition execute (fails : bool) (stmt : gmap Z Row → gmap Z Row) : Act unit :=
  λ c, if fails then (Raises, c)
       else (Returns (), {| disk := disk c; txn := stmt (txn c); outbox := outbox c |}).

(** [cursor = await db.execute(SELECT ...); await cursor.fetchone()]:
    the selected columns of the first matching row, or [None]. *)
Definition fetchone {A} (fails : bool) (q : gmap Z Row → option A) : Act (option A) :=
  λ c, if fails then (Raises, c) else (Returns (q (txn c)), c).

(** [await db.commit()] *)
Definition commit (fails : bool) : Act unit :=
  λ c, if fails then (Raises, c)
       else (Returns (), {| disk := txn c; txn := txn c; outbox := outbox c |}).

(** [await bot.send_message(chat_id, ...)]: the attempt is recorded whether
    or not the delivery succeeds; a failed delivery raises. *)
Definition send_message (ok : bool) (chat_id : Z) : Act unit :=
  λ c, (if ok then Returns () else Raises,
        {| disk := disk c; txn := txn c; outbox := chat_id :: outbox c |}).

(** [try: body except Exception: handler] *)
Definition try_except {A} (body handler : Act A) : Act A :=
  λ c, match body c with
       | (Returns a, c') => (Returns a, c')
       | (Raises, c') => handler c'
       end.

(** [async with aiosqlite.connect(DB_FILE) as db: body].  The connection
    starts on the committed table; on exit, normal or not, only what was
    committed remains. *)
Definition async_with_connect {A} (body : Act A) (w : World) : outcome A * World :=
  let '(r, c) := body {| disk := users w; txn := users w; outbox := sent w |} in
  (r, {| users := disk c; sent := outbox c |}).

(** ** The SQL statements *)

(** [INSERT OR IGNORE INTO users (user_id) VALUES (?)] *)
Definition insert_or_ignore (user_id : Z) (t : gmap Z Row) : gmap Z Row :=
  match t !! user_id with
  | Some _ => t
  | None => <[user_id := default_row]> t
  end.

Definition set_invited_by (inviter_id : Z) (r : Row) : Row :=
  {| invited_by := Some inviter_id;
     referrals := referrals r;
     goal_achieved_notified := goal_achieved_notified r |}.

Definition add_referral (r : Row) : Row :=
  {| invited_by := invited_by r;
     referrals := (referrals r + 1)%Z;
     goal_achieved_notified := goal_achieved_notified r |}.

Definition set_notified (r : Row) : Row :=
  {| invited_by := invited_by r;
     referrals := referrals r;
     goal_achieved_notified := 1 |}.

(** [UPDATE users SET invited_by = ? WHERE user_id = ?] *)
Definition update_invited_by (inviter_id user_id : Z) (t : gmap Z Row) : gmap Z Row :=
  alter (set_invited_by inviter_id) user_id t.

(** [UPDATE users SET referrals = referrals + 1 WHERE user_id = ?] *)
Definition update_referrals (inviter_id : Z) (t : gmap Z Row) : gmap Z Row :=
  alter add_referral inviter_id t.

(** [UPDATE users SET goal_achieved_notified = 1 WHERE user_id = ?] *)
Definition update_goal_achieved_notified (inviter_id : Z) (t : gmap Z Row) : gmap Z Row :=
  alter set_notified inviter_id t.

(** [SELECT invited_by FROM users WHERE user_id = ?] *)
Definition select_invited_by (user_id : Z) (t : gmap Z Row) : option (option Z) :=
  invited_by <$> t !! user_id.

(** [SELECT referrals, goal_achieved_notified FROM users WHERE user_id = ?] *)
Definition select_referrals_notified (inviter_id : Z) (t : gmap Z Row) : option (Z * Z) :=
  (λ r, (referrals r, goal_achieved_notified r)) <$> t !! inviter_id.

(** [SELECT referrals FROM users WHERE user_id = ?] *)
Definition select_referrals (user_id : Z) (t : gmap Z Row) : option Z :=
  referrals <$> t !! user_id.

(** ** The database functions of the program *)

(** [init_db] on a fresh file: [CREATE TABLE IF NOT EXISTS] leaves an
    empty table, and nothing has been sent yet. *)
Definition init_db : World := {| users := ∅; sent := [] |}.

(** [add_user(user_id)] *)
Definition add_user (f : faults) (user_id : Z) : World → outcome unit * World :=
  async_with_connect (
    execute (f 0%nat) (insert_or_ignore user_id) ;;;
    commit (f 1%nat)).

(** [result and result[0] is None and user_id != inviter_id] *)
Definition may_attribute (result : option (option Z)) (user_id inviter_id : Z) : bool :=
  match result with
  | Some None => negb (user_id =? inviter_id)%Z
  | _ => false
  end.

(** [process_referral(user_id, inviter_id)] *)
Definition process_referral (f : faults) (user_id inviter_id : Z)
    : World → outcome bool * World :=
  async_with_connect (
    let! result := fetchone (f 0%nat) (select_invited_by user_id) in
    if may_attribute result user_id inviter_id then
      execute (f 1%nat) (update_invited_by inviter_id user_id) ;;;
      execute (f 2%nat) (update_referrals inviter_id) ;;;
      commit (f 3%nat) ;;;
      ret true
    else ret false).

(** [referrals >= REFERRAL_GOAL and not notified] *)
Definition goal_pending (referrals notified : Z) : bool :=
  (REFERRAL_GOAL <=? referrals)%Z && (notified =? 0)%Z.

(** [check_and_notify_on_goal(bot, inviter_id)]; [send_ok] tells whether
    [bot.send_message] delivers, should this call reach it. *)
Definition check_and_notify_on_goal (f : faults) (send_ok : bool) (inviter_id : Z)
    : World → outcome unit * World :=
  async_with_connect (
    let! result := fetchone (f 0%nat) (select_referrals_notified inviter_id) in
    match result with
    | None => ret ()
    | Some (referrals, notified) =>
        if goal_pending referrals notified then
          try_except
            (send_message send_ok inviter_id ;;;
             execute (f 1%nat) (update_goal_achieved_notified inviter_id) ;;;
             commit (f 2%nat))
            (ret ())
        else ret ()
    end).

(** [get_user_referrals(user_id)] *)
Definition get_user_referrals (f : faults) (user_id : Z) : World → outcome Z * World :=
  async_with_connect (
    let! result := fetchone (f 0%nat) (select_referrals user_id) in
    ret (match result with Some n => n | None => 0%Z end)).

(** ** Sequences of calls *)

Inductive Call : Type :=
  | AddUser (f : faults) (user_id : Z)
  | ProcessReferral (f : faults) (user_id inviter_id : Z)
  | CheckGoal (f : faults) (send_ok : bool) (inviter_id : Z)
  | GetReferrals (f : faults) (user_id : Z).

(** The world a call leaves behind, whatever it returned or raised. *)
Definition call (c : Call) (w : World) : World :=
  match c with
  | AddUser f u => snd (add_user f u w)
  | ProcessReferral f u i => snd (process_referral f u i w)
  | CheckGoal f ok i => snd (check_and_notify_on_goal f ok i w)
  | GetReferrals f u => snd (get_user_referrals f u w)
  end.

Fixpoint run (cs : list Call) (w : World) : World :=
  match cs with
  | [] => w
  | c :: cs' => run cs' (call c w)
  end.

(** The caller's duty before [process_referral]: both rows exist
    ([handle_start] calls [add_user] for both ids first). *)
Definition precondition (c : Call) (w : World) : Prop :=
  match c with
  | ProcessReferral _ u i => is_Some (users w !! u) ∧ is_Some (users w !! i)
  | _ => True
  end.

Fixpoint preconditions (cs : list Call) (w : World) : Prop :=
  match cs with
  | [] => True
  | c :: cs' => precondition c w ∧ preconditions cs' (call c w)
  end.

(** ** Observations on the table *)

(** The rows whose [invited_by] is [U]. *)
Definition invitees (U : Z) (t : gmap Z Row) : gmap Z Row :=
  filter (λ kr, invited_by kr.2 = Some U) t.

(** [referral_count(U)]: the stored counter, read as the program reads it
    ([get_user_referrals]: 0 without a row). *)
Definition referral_count (U : Z) (t : gmap Z Row) : Z :=
  match t !! U with Some r => referrals r | None => 0%Z end.

(** Python truth value of the stored flag ([not notified] is its negation). *)
Definition goal_notified (r : Row) : bool := negb (goal_achieved_notified r =? 0)%Z.

Definition notified (U : Z) (t : gmap Z Row) : bool :=
  match t !! U with Some r => goal_notified r | None => false end.

(** Counter and attribution agree for every user. *)
Definition consistent (t : gmap Z Row) : Prop :=
  ∀ U : Z, referral_count U t = Z.of_nat (size (invitees U t)).

(** ** How one call changes the world *)

(** Every call either leaves the world as it is (a rejected or failed call,
    a query, a rolled-back transaction) or makes one of four changes. *)
Inductive effect (w : World) : Call → World → Prop :=
  | effect_none (c : Call) :
      effect w c w
  | effect_insert (f : faults) (u : Z) :
      users w !! u = None →
      effect w (AddUser f u)
        {| users := <[u := default_row]> (users w); sent := sent w |}
  | effect_attribute (f : faults) (u i : Z) (r : Row) :
      users w !! u = Some r → invited_by r = None → u ≠ i →
      effect w (ProcessReferral f u i)
        {| users := alter add_referral i (<[u := set_invited_by i r]> (users w));
           sent := sent w |}
  | effect_attempt (f : faults) (ok : bool) (i : Z) (r : Row) :
      users w !! i = Some r →
      (REFERRAL_GOAL ≤ referrals r)%Z → goal_achieved_notified r = 0%Z →
      effect w (CheckGoal f ok i)
        {| users := users w; sent := i :: sent w |}
  | effect_notified (f : faults) (i : Z) (r : Row) :
      users w !! i = Some r →
      (REFERRAL_GOAL ≤ referrals r)%Z → goal_achieved_notified r = 0%Z →
      effect w (CheckGoal f true i)
        {| users := <[i := set_notified r]> (users w); sent := i :: sent w |}.

(** ** Observations on a run *)

(** How often [bot.send_message] has been called for [U]. *)
Definition attempts (U : Z) (w : World) : nat := count_occ Z.eq_dec (sent w) U.

(** Number of steps of a run at which the flag of [U] goes from false to
    true. *)
Fixpoint flips (U : Z) (cs : list Call) (w : World) : nat :=
  match cs with
  | [] => 0
  | c :: cs' =>
      (if negb (notified U (users w)) && notified U (users (call c w)) then 1 else 0)
      + flips U cs' (call c w)
  end.

(** The calls [handle_start] makes for an arriving [user_id] whose start
    link names [inviter_id], up to the attribution. *)
Definition arrival (user_id inviter_id : Z) : list Call :=
  [ AddUser no_fault user_id; AddUser no_fault inviter_id;
    ProcessReferral no_fault user_id inviter_id ].

(** Nine arrivals through the link of user 100, each followed by the goal
    check, and a tenth arrival. *)
Definition ten_arrivals : list Call :=
  flat_map (λ u, arrival u 100 ++ [CheckGoal no_fault true 100])
    [1; 2; 3; 4; 5; 6; 7; 8; 9]%Z
  ++ arrival 10 100.

(** ** Two [process_referral] calls in flight *)

(** [handle_start] runs as one task per update, and a running
    [process_referral] gives up control at each [await].  The suspension
    that matters lies between [await cursor.fetchone()] (line 55), after
    which the row read is held in the local [result], and the first UPDATE
    (line 58): the guard of line 57 is evaluated on [result], not on the
    table.  The UPDATEs and the commit of lines 58-60 are taken as one step;
    splitting them further only adds interleavings. *)
Module Interleaving.

Inductive Task : Type :=
  | Start (user_id inviter_id : Z)
  | Fetched (user_id inviter_id : Z) (result : option (option Z))
  | Done (ret : bool).

(** One step of a task on the shared table. *)
Definition step (k : Task) (t : gmap Z Row) : Task * gmap Z Row :=
  match k with
  | Start u i => (Fetched u i (select_invited_by u t), t)
  | Fetched u i result =>
      if may_attribute result u i
      then (Done true, update_referrals i (update_invited_by i u t))
      else (Done false, t)
  | Done b => (Done b, t)
  end.

Record Pool := mkPool {
  first : Task;
  second : Task;
  table : gmap Z Row
}.

(** A schedule names, step by step, the task that runs: [false] the first,
    [true] the second. *)
Fixpoint exec (s : list bool) (p : Pool) : Pool :=
  match s with
  | [] => p
  | false :: s' =>
      let '(k, t) := step (first p) (table p) in
      exec s' {| first := k; second := second p; table := t |}
  | true :: s' =>
      let '(k, t) := step (second p) (table p) in
      exec s' {| first := first p; second := k; table := t |}
  end.

(** Every task takes its two steps. *)
Definition complete (s : list bool) : Prop :=
  count_occ bool_dec s false = 2 ∧ count_occ bool_dec s true = 2.

(** One call runs to its end before the other starts. *)
Definition serial (s : list bool) : bool :=
  bool_decide (s = [false; false; true; true])
  || bool_decide (s = [true; true; false; false]).

End Interleaving.

(** What the two callers and the rows of A, B and C show at the end. *)
Definition verdict (A B C : Z) (p : Interleaving.Pool)
    : Interleaving.Task * Interleaving.Task * option (option Z) * Z * Z :=
  (Interleaving.first p, Interleaving.second p,
   invited_by <$> Interleaving.table p !! A,
   referral_count B (Interleaving.table p), referral_count C (Interleaving.table p)).

(** Two calls in flight for the same new user A, with inviters B and C. *)
Definition pool0 (A B C : Z) (t : gmap Z Row) : Interleaving.Pool :=
  {| Interleaving.first := Interleaving.Start A B;
     Interleaving.second := Interleaving.Start A C;
     Interleaving.table := t |}.

(** ** The handlers *)

(** Sequencing of awaited calls in a handler: an exception ends it. *)
Definition and_then {A B} (m : World → outcome A * World)
    (k : A → World → outcome B * World) : World → outcome B * World :=
  λ w, match m w with
       | (Returns a, w') => k a w'
       | (Raises, w') => (Raises, w')
       end.

Definition pure {A} (a : A) : World → outcome A * World := λ w, (Returns a, w).

Definition raise {A} : World → outcome A * World := λ w, (Raises, w).

(** An awaited Telegram call other than [bot.send_message]: it returns or
    raises, and touches neither the table nor the list of notifications. *)
Definition external (ok : bool) : World → outcome unit * World :=
  λ w, (if ok then Returns () else Raises, w).

Notation "'do!' x ':=' m 'in' k" := (and_then m (λ x, k))
  (at level 10, x name, m at level 100, k at level 200, only parsing).

(** What lines 102-104 of [handle_start] make of the text after [/start]:
    the test [args and args.isdigit()] fails, or it passes and [int(args)]
    is [inviter_id], or evaluating these lines raises (as [int] does on a
    digit that is no decimal digit). *)
Inductive StartArgs : Type :=
  | NoDigits
  | Digits (inviter_id : Z)
  | ArgsRaise.

(** What the surroundings of one [handle_start] run do: the fault plans of
    its four database calls, and whether [bot.send_message],
    [create_start_link] and [message.answer] return. *)
Record StartEnv := mkStartEnv {
  plan_user : faults;
  plan_inviter : faults;
  plan_referral : faults;
  plan_check : faults;
  delivers : bool;
  link_made : bool;
  answered : bool
}.

(** [handle_start(message, bot)] for [message.from_user.id = user_id]. *)
Definition handle_start (e : StartEnv) (user_id : Z) (args : StartArgs)
    : World → outcome unit * World :=
  do! _ := add_user (plan_user e) user_id in
  do! _ := match args with
           | NoDigits => pure ()
           | ArgsRaise => raise
           | Digits inviter_id =>
               if negb (inviter_id =? user_id)%Z then
                 do! _ := add_user (plan_inviter e) inviter_id in
                 do! credited := process_referral (plan_referral e) user_id inviter_id in
                 if (credited : bool)
                 then check_and_notify_on_goal (plan_check e) (delivers e) inviter_id
                 else pure ()
               else pure ()
           end in
  do! _ := external (link_made e) in
  external (answered e).

(** The two texts [handle_progress] answers with, with the numbers they
    interpolate. *)
Inductive Reply : Type :=
  | GoalReached (referrals : Z)
  | StillToInvite (referrals remaining : Z).

(** [handle_progress(message)]: the reply handed to [message.answer]. *)
Definition handle_progress (f : faults) (answer_ok : bool) (user_id : Z)
    : World → outcome Reply * World :=
  do! referrals := get_user_referrals f user_id in
  let reply :=
    if (REFERRAL_GOAL <=? referrals)%Z then GoalReached referrals
    else StillToInvite referrals (REFERRAL_GOAL - referrals) in
  do! _ := external answer_ok in
  pure reply.

(** The updates the dispatcher routes to the two handlers, handled one
    after the other. *)
Inductive Update : Type :=
  | StartCommand (e : StartEnv) (user_id : Z) (args : StartArgs)
  | ProgressCommand (f : faults) (answer_ok : bool) (user_id : Z).

Definition handle (u : Update) (w : World) : World :=
  match u with
  | StartCommand e user_id args => (handle_start e user_id args w).2
  | ProgressCommand f ok user_id => (handle_progress f ok user_id w).2
  end.

Fixpoint serve (us : list Update) (w : World) : World :=
  match us with
  | [] => w
  | u :: us' => serve us' (handle u w)
  end.

(** ** Further observations *)

(** No row names itself as its inviter. *)
Definition no_self_referral (t : gmap Z Row) : Prop :=
  ∀ (U : Z) (r : Row), t !! U = Some r → invited_by r ≠ Some U.

(** No counter is negative or above the number of rows naming its user. *)
Definition never_over_credited (t : gmap Z Row) : Prop :=
  ∀ U : Z, (0 ≤ referral_count U t ≤ Z.of_nat (size (invitees U t)))%Z.

(** Every user a notification was sent to has reached the goal. *)
Definition sent_reached_goal (w : World) : Prop :=
  ∀ U : Z, U ∈ sent w → (REFERRAL_GOAL ≤ referral_count U (users w))%Z.

(** Number of [process_referral] calls of a run that name [U] as inviter. *)
Fixpoint credits (U : Z) (cs : list Call) : nat :=
  match cs with
  | [] => 0
  | ProcessReferral _ _ i :: cs' => (if (i =? U)%Z then 1 else 0) + credits U cs'
  | _ :: cs' => credits U cs'
  end.

(** A goal check whose delivery and flag write both succeed. *)
Definition reliable (c : Call) : Prop :=
  match c with
  | CheckGoal f ok _ => ok = true ∧ f 1%nat = false ∧ f 2%nat = false
  | _ => True
  end.

Definition reliable_update (u : Update) : Prop :=
  match u with
  | StartCommand e _ _ =>
      delivers e = true ∧ plan_check e 1%nat = false ∧ plan_check e 2%nat = false
  | ProgressCommand _ _ _ => True
  end.

(** Surroundings in which nothing fails. *)
Definition calm : StartEnv :=
  {| plan_user := no_fault; plan_inviter := no_fault; plan_referral := no_fault;
     plan_check := no_fault; delivers := true; link_made := true; answered := true |}.

(** The notification went out once to the users whose flag is true, and
    never to the others. *)
Definition exactly_once (w : World) : Prop :=
  ∀ U : Z, attempts U w = if notified U (users w) then 1 else 0.

(** * Properties *)

(** ** Unfolding equations of the database functions *)

Lemma world_eta (w : World) : {| users := users w; sent := sent w |} = w.
Proof. by destruct w. Qed.

Lemma add_user_eq f u w :
  add_user f u w =
    if f 0%nat || f 1%nat then (Raises, w)
    else (Returns (), {| users := insert_or_ignore u (users w); sent := sent w |}).
Proof.
  unfold add_user, async_with_connect, bind, execute, commit.
  destruct (f 0%nat), (f 1%nat); simpl; by rewrite ?world_eta.
Qed.

Lemma process_referral_eq f u i w :
  process_referral f u i w =
    if f 0%nat then (Raises, w)
    else if may_attribute (select_invited_by u (users w)) u i then
      if f 1%nat || f 2%nat || f 3%nat then (Raises, w)
      else (Returns true,
            {| users := update_referrals i (update_invited_by i u (users w));
               sent := sent w |})
    else (Returns false, w).
Proof.
  unfold process_referral, async_with_connect, bind, fetchone, execute, commit, ret.
  destruct (f 0%nat); simpl; [by rewrite world_eta|].
  destruct (may_attribute _ _ _); simpl; [|by rewrite world_eta].
  destruct (f 1%nat), (f 2%nat), (f 3%nat); simpl; by rewrite ?world_eta.
Qed.

Lemma check_and_notify_on_goal_eq f ok i w :
  check_and_notify_on_goal f ok i w =
    if f 0%nat then (Raises, w)
    else match select_referrals_notified i (users w) with
         | None => (Returns (), w)
         | Some (n, b) =>
             if goal_pending n b then
               (Returns (),
                {| users := if ok && negb (f 1%nat) && negb (f 2%nat)
                            then update_goal_achieved_notified i (users w)
                            else users w;
                   sent := i :: sent w |})
             else (Returns (), w)
         end.
Proof.
  unfold check_and_notify_on_goal, async_with_connect, bind, fetchone.
  destruct (f 0%nat); simpl; [by rewrite world_eta|].
  destruct (select_referrals_notified _ _) as [[n b]|]; simpl; [|by rewrite world_eta].
  destruct (goal_pending n b); simpl; [|by rewrite world_eta].
  unfold try_except, bind, send_message, execute, commit, ret.
  destruct ok, (f 1%nat), (f 2%nat); simpl; done.
Qed.

Lemma get_user_referrals_eq f u w :
  get_user_referrals f u w =
    if f 0%nat then (Raises, w) else (Returns (referral_count u (users w)), w).
Proof.
  unfold get_user_referrals, async_with_connect, bind, fetchone, ret, referral_count,
    select_referrals.
  destruct (f 0%nat); simpl; rewrite world_eta; [done|].
  by destruct (users w !! u).
Qed.

(** ** Updating one row *)

Lemma alter_Some (g : Row → Row) (k : Z) (r : Row) (t : gmap Z Row) :
  t !! k = Some r → alter g k t = <[k := g r]> t.
Proof.
  intros Hk. apply map_eq. intros j.
  destruct (decide (k = j)) as [<-|Hne].
  - by rewrite lookup_alter_eq, lookup_insert_eq, Hk.
  - by rewrite lookup_alter_ne, lookup_insert_ne.
Qed.

Lemma alter_None (g : Row → Row) (k : Z) (t : gmap Z Row) :
  t !! k = None → alter g k t = t.
Proof.
  intros Hk. apply map_eq. intros j.
  destruct (decide (k = j)) as [<-|Hne].
  - by rewrite lookup_alter_eq, Hk.
  - by rewrite lookup_alter_ne.
Qed.

Lemma may_attribute_true (result : option (option Z)) (u i : Z) :
  may_attribute result u i = true ↔ result = Some None ∧ u ≠ i.
Proof.
  unfold may_attribute. destruct result as [[b|]|].
  - split; [done|]. by intros [[=] _].
  - rewrite negb_true_iff, Z.eqb_neq. by split; [|intros [_ ?]].
  - split; [done|]. by intros [[=] _].
Qed.

Lemma may_attribute_self (result : option (option Z)) (u : Z) :
  may_attribute result u u = false.
Proof.
  unfold may_attribute. destruct result as [[b|]|]; try done.
  by rewrite Z.eqb_refl.
Qed.

(** ** The user registry: [add_user] *)

(** C8.  [add_user(user_id)] returns normally; without a row for [user_id]
    it adds the row with the defaults (NULL, 0, 0) and touches nothing else,
    with a row it leaves the world as it is, whatever that row holds; a
    second call after the first changes nothing any more. *)
Theorem add_user_ensures_row (user_id : Z) (w : World) :
  add_user no_fault user_id w =
    (Returns (),
     match users w !! user_id with
     | Some _ => w
     | None => {| users := <[user_id := default_row]> (users w); sent := sent w |}
     end)
  ∧ invited_by default_row = None
  ∧ referrals default_row = 0%Z
  ∧ goal_notified default_row = false
  ∧ add_user no_fault user_id (add_user no_fault user_id w).2
    = (Returns (), (add_user no_fault user_id w).2).
Proof.
  rewrite !add_user_eq. simpl. unfold insert_or_ignore.
  destruct (users w !! user_id) as [r|] eqn:Hu; simpl.
  - rewrite world_eta, Hu. by rewrite world_eta.
  - by rewrite lookup_insert_eq.
Qed.

(** ** The query: [get_user_referrals] *)

(** C9.  [get_user_referrals(user_id)] returns the stored [referrals] of
    the row, or 0 when there is no row; it returns normally, and it leaves
    the world untouched even when the storage layer fails. *)
Theorem get_user_referrals_total (user_id : Z) (w : World) :
  get_user_referrals no_fault user_id w =
    (Returns (match users w !! user_id with Some r => referrals r | None => 0%Z end), w)
  ∧ ∀ f : faults, (get_user_referrals f user_id w).2 = w.
Proof.
  split; [by rewrite get_user_referrals_eq|].
  intros f. rewrite get_user_referrals_eq. by destruct (f 0%nat).
Qed.

(** ** Attribution: [process_referral] *)

(** C6.  [process_referral(A, A)] returns [False] (it does not raise) and
    leaves the world untouched, in every world; under storage failures the
    world is untouched as well. *)
Theorem self_referral_rejected (A : Z) (w : World) :
  process_referral no_fault A A w = (Returns false, w)
  ∧ ∀ f : faults, (process_referral f A A w).2 = w.
Proof.
  split; [|intros f]; rewrite process_referral_eq, may_attribute_self; [done|].
  by destruct (f 0%nat).
Qed.

(** The world after a successful attribution of [user_id] to [inviter_id]. *)
Lemma process_referral_accepts f u i w r :
  users w !! u = Some r → invited_by r = None → u ≠ i →
  process_referral f u i w =
    if f 0%nat || f 1%nat || f 2%nat || f 3%nat then (Raises, w)
    else (Returns true,
          {| users := alter add_referral i (<[u := set_invited_by i r]> (users w));
             sent := sent w |}).
Proof.
  intros Hu Hr Hne. rewrite process_referral_eq.
  assert (may_attribute (select_invited_by u (users w)) u i = true) as ->.
  { apply may_attribute_true. unfold select_invited_by. rewrite Hu. cbn. by rewrite Hr. }
  unfold update_referrals, update_invited_by.
  rewrite (alter_Some (set_invited_by i) u r) by done.
  by destruct (f 0%nat), (f 1%nat), (f 2%nat), (f 3%nat).
Qed.

Lemma process_referral_rejects_taken f u i w r b :
  users w !! u = Some r → invited_by r = Some b →
  process_referral f u i w = (if f 0%nat then Raises else Returns false, w).
Proof.
  intros Hu Hr. rewrite process_referral_eq. unfold select_invited_by.
  rewrite Hu. cbn. rewrite Hr. cbn. by destruct (f 0%nat).
Qed.

(** C3.  With both rows present, [user_id ≠ inviter_id] and [invited_by] of
    the new user NULL, [process_referral] returns [True] and the table
    differs from the old one in exactly two places: the new user's row has
    [invited_by = inviter_id], the inviter's row has [referrals] one higher;
    all other columns and rows, and the sent list, are as before.  When any
    storage operation of the call raises (the SELECT, either UPDATE or the
    commit), the call raises and the world is the old one: neither update
    is applied. *)
Theorem process_referral_atomic (f : faults) (user_id inviter_id : Z) (w : World)
    (r ri : Row) :
  users w !! user_id = Some r →
  users w !! inviter_id = Some ri →
  user_id ≠ inviter_id →
  invited_by r = None →
  process_referral f user_id inviter_id w =
    if f 0%nat || f 1%nat || f 2%nat || f 3%nat then (Raises, w)
    else (Returns true,
          {| users :=
               <[inviter_id := {| invited_by := invited_by ri;
                                  referrals := referrals ri + 1;
                                  goal_achieved_notified := goal_achieved_notified ri |}]>
               (<[user_id := {| invited_by := Some inviter_id;
                                referrals := referrals r;
                                goal_achieved_notified := goal_achieved_notified r |}]>
                (users w));
             sent := sent w |}).
Proof.
  intros Hu Hi Hne Hr. rewrite (process_referral_accepts f _ _ _ r) by done.
  rewrite (alter_Some _ _ ri); [done|]. by rewrite lookup_insert_ne.
Qed.

Lemma process_referral_atomic_witness :
  let w := {| users := {[1%Z := default_row; 2%Z := default_row]}; sent := [] |} in
  process_referral no_fault 1 2 w =
    (Returns true,
     {| users := {[1%Z := mkRow (Some 2%Z) 0 0; 2%Z := mkRow None 1 0]}; sent := [] |}).
Proof.
  intros w.
  rewrite (process_referral_atomic no_fault 1 2 w default_row default_row);
    [ | reflexivity | reflexivity | lia | reflexivity ].
  reflexivity.
Defined.

(** C10.  When the new user's row exists with [invited_by] NULL and
    [user_id ≠ inviter_id] but the inviter has no row, [process_referral]
    still returns [True] and stores [invited_by = inviter_id]; the second
    UPDATE matches no row, so no [referrals] value changes anywhere. *)
Theorem process_referral_missing_inviter (user_id inviter_id : Z) (w : World) (r : Row) :
  users w !! user_id = Some r →
  invited_by r = None →
  user_id ≠ inviter_id →
  users w !! inviter_id = None →
  process_referral no_fault user_id inviter_id w =
    (Returns true,
     {| users := <[user_id := {| invited_by := Some inviter_id;
                                 referrals := referrals r;
                                 goal_achieved_notified := goal_achieved_notified r |}]>
                 (users w);
        sent := sent w |})
  ∧ ∀ k : Z,
      referrals <$> users (process_referral no_fault user_id inviter_id w).2 !! k
      = referrals <$> users w !! k.
Proof.
  intros Hu Hr Hne Hi.
  rewrite (process_referral_accepts no_fault _ _ _ r) by done. simpl.
  rewrite alter_None by by rewrite lookup_insert_ne.
  split; [done|]. intros k. simpl.
  destruct (decide (user_id = k)) as [<-|?].
  - by rewrite lookup_insert_eq, Hu.
  - by rewrite lookup_insert_ne.
Qed.

Lemma process_referral_missing_inviter_witness :
  let w := {| users := {[5%Z := default_row]}; sent := [] |} in
  process_referral no_fault 5 7 w =
    (Returns true, {| users := {[5%Z := mkRow (Some 7%Z) 0 0]}; sent := [] |})
  ∧ get_user_referrals no_fault 7 (process_referral no_fault 5 7 w).2 =
    (Returns 0%Z, (process_referral no_fault 5 7 w).2).
Proof.
  intros w.
  destruct (process_referral_missing_inviter 5 7 w default_row) as [Heq _];
    [reflexivity | reflexivity | lia | reflexivity | ].
  rewrite Heq. split; reflexivity.
Defined.

(** C2, as amended.  Let A's row exist with [invited_by] NULL, let B's row
    exist and B ≠ A.  Then [process_referral(A, B)] returns [True], leaves
    [invited_by(A) = B] and [referrals(B)] one higher; a following
    [process_referral(A, C)], for any C, returns [False] and leaves the
    world as it was, so [invited_by(A)] is still B and [referrals(C)] is
    what it was.  In general a call for a user whose [invited_by] is
    already set returns [False] and changes nothing, whoever the inviter. *)
Theorem first_attribution_wins (A B C : Z) (w : World) (r rb : Row) :
  users w !! A = Some r →
  invited_by r = None →
  users w !! B = Some rb →
  B ≠ A →
  let w1 := (process_referral no_fault A B w).2 in
  (process_referral no_fault A B w).1 = Returns true
  ∧ invited_by <$> users w1 !! A = Some (Some B)
  ∧ referral_count B (users w1) = (referral_count B (users w) + 1)%Z
  ∧ process_referral no_fault A C w1 = (Returns false, w1)
  ∧ invited_by <$> users (process_referral no_fault A C w1).2 !! A = Some (Some B)
  ∧ referral_count C (users (process_referral no_fault A C w1).2)
    = referral_count C (users w1)
  ∧ ∀ (u i b : Z) (w' : World) (r' : Row),
      users w' !! u = Some r' → invited_by r' = Some b →
      process_referral no_fault u i w' = (Returns false, w').
Proof.
  intros HA Hr HB Hne w1.
  assert (∀ (u i b : Z) (w' : World) (r' : Row),
      users w' !! u = Some r' → invited_by r' = Some b →
      process_referral no_fault u i w' = (Returns false, w')) as Hgen.
  { intros u i b w' r' Hu Hb.
    by rewrite (process_referral_rejects_taken no_fault u i w' r' b). }
  assert (users w1 !! A = Some (set_invited_by B r)) as HA1.
  { unfold w1. rewrite (process_referral_accepts no_fault A B w r) by done. simpl.
    by rewrite lookup_alter_ne, lookup_insert_eq. }
  assert (process_referral no_fault A C w1 = (Returns false, w1)) as Hsnd.
  { by apply (Hgen A C B w1 (set_invited_by B r)). }
  rewrite Hsnd. simpl. rewrite HA1.
  repeat split; try done.
  - by rewrite (process_referral_accepts no_fault A B w r).
  - unfold w1, referral_count.
    rewrite (process_referral_accepts no_fault A B w r) by done. simpl.
    by rewrite lookup_alter_eq, lookup_insert_ne, HB.
Qed.

Lemma first_attribution_wins_witness :
  let w := {| users := {[1%Z := default_row; 2%Z := default_row; 3%Z := default_row]};
              sent := [] |} in
  let w1 := (process_referral no_fault 1 2 w).2 in
  (process_referral no_fault 1 2 w).1 = Returns true
  ∧ process_referral no_fault 1 3 w1 = (Returns false, w1).
Proof.
  intros w w1.
  destruct (first_attribution_wins 1 2 3 w default_row default_row)
    as (H1 & _ & _ & H4 & _); [reflexivity | reflexivity | reflexivity | lia | ].
  split; [exact H1 | exact H4].
Defined.

(** C2, as first stated, fails where the inviter is the user itself: with
    B = A the first call returns [False] although B ≠ C and A's row exists
    with [invited_by] NULL.  It also fails where B has no row: the first
    call returns [True] but B's count is not one higher. *)
Lemma first_attribution_counterexample :
  let w := {| users := {[1%Z := default_row; 2%Z := default_row]}; sent := [] |} in
  (1 ≠ 2)%Z
  ∧ users w !! 1%Z = Some default_row
  ∧ invited_by default_row = None
  ∧ process_referral no_fault 1 1 w = (Returns false, w)
  ∧ (process_referral no_fault 1 1 w).1 ≠ Returns true
  ∧ (process_referral no_fault 1 9 w).1 = Returns true
  ∧ referral_count 9 (users (process_referral no_fault 1 9 w).2)
    ≠ (referral_count 9 (users w) + 1)%Z.
Proof.
  intros w. split; [lia|]. split; [reflexivity|]. split; [reflexivity|].
  assert (process_referral no_fault 1 1 w = (Returns false, w)) as H11.
  { by rewrite process_referral_eq, may_attribute_self. }
  rewrite H11. split; [done|]. split; [done|].
  rewrite (process_referral_accepts no_fault 1 9 w default_row);
    [ | reflexivity | reflexivity | lia ].
  split; [done|]. vm_compute. discriminate.
Qed.

Lemma goal_pending_true (n b : Z) :
  goal_pending n b = true ↔ (REFERRAL_GOAL ≤ n)%Z ∧ b = 0%Z.
Proof. unfold goal_pending. rewrite andb_true_iff, Z.leb_le, Z.eqb_eq. done. Qed.

Lemma call_effect (c : Call) (w : World) : effect w c (call c w).
Proof.
  destruct c as [f u|f u i|f ok i|f u]; simpl.
  - rewrite add_user_eq. destruct (f 0%nat || f 1%nat); simpl; [constructor|].
    unfold insert_or_ignore. destruct (users w !! u) eqn:Hu.
    + rewrite world_eta. constructor.
    + by constructor.
  - rewrite process_referral_eq. destruct (f 0%nat); simpl; [constructor|].
    destruct (may_attribute _ _ _) eqn:Hm; simpl; [|constructor].
    destruct (f 1%nat || f 2%nat || f 3%nat); simpl; [constructor|].
    apply may_attribute_true in Hm as [Hsel Hne]. unfold select_invited_by in Hsel.
    destruct (users w !! u) as [r|] eqn:Hu; [|done].
    injection Hsel as Hr. unfold update_referrals, update_invited_by.
    rewrite (alter_Some (set_invited_by i) u r) by done. by constructor.
  - rewrite check_and_notify_on_goal_eq. destruct (f 0%nat); simpl; [constructor|].
    unfold select_referrals_notified.
    destruct (users w !! i) as [r|] eqn:Hi; simpl; [|constructor].
    destruct (goal_pending _ _) eqn:Hp; simpl; [|constructor].
    apply goal_pending_true in Hp as [Hn Hb].
    destruct (ok && negb (f 1%nat) && negb (f 2%nat)) eqn:Hok.
    + apply andb_true_iff in Hok as [Hok _]. apply andb_true_iff in Hok as [-> _].
      unfold update_goal_achieved_notified. rewrite (alter_Some _ _ r) by done.
      by constructor.
    + by apply (effect_attempt w f ok i r).
  - rewrite get_user_referrals_eq. destruct (f 0%nat); constructor.
Qed.

(** ** Counter and attribution stay in step *)

Lemma invitees_update_size (U k : Z) (r r' : Row) (t : gmap Z Row) :
  t !! k = Some r → invited_by r' = invited_by r →
  size (invitees U (<[k := r']> t)) = size (invitees U t).
Proof.
  intros Hk Hinv. unfold invitees. rewrite map_filter_insert. case_decide as HP.
  - apply map_size_insert_Some. exists r.
    apply map_lookup_filter_Some. split; [done|]. simpl in *. congruence.
  - f_equal. apply map_filter_delete_not. intros y Hy. simpl in *. congruence.
Qed.

Lemma invitees_insert_fresh (U k : Z) (r' : Row) (t : gmap Z Row) :
  t !! k = None → invited_by r' = None →
  invitees U (<[k := r']> t) = invitees U t.
Proof.
  intros Hk Hinv. unfold invitees. apply map_filter_insert_not'; simpl.
  - by rewrite Hinv.
  - intros y. by rewrite Hk.
Qed.

Lemma invitees_gain (U k : Z) (r r' : Row) (t : gmap Z Row) :
  t !! k = Some r → invited_by r = None → invited_by r' = Some U →
  size (invitees U (<[k := r']> t)) = S (size (invitees U t)).
Proof.
  intros Hk Hr Hr'. unfold invitees. rewrite map_filter_insert_True by done.
  apply map_size_insert_None, map_lookup_filter_None. right.
  intros y Hy. simpl. congruence.
Qed.

Lemma invitees_other (U V k : Z) (r r' : Row) (t : gmap Z Row) :
  t !! k = Some r → invited_by r = None → invited_by r' = Some V → V ≠ U →
  invitees U (<[k := r']> t) = invitees U t.
Proof.
  intros Hk Hr Hr' Hne. unfold invitees. apply map_filter_insert_not'; simpl.
  - congruence.
  - intros y Hy. congruence.
Qed.

Lemma referral_count_insert (U k : Z) (r' : Row) (t : gmap Z Row) :
  referral_count U (<[k := r']> t) =
    if decide (k = U) then referrals r' else referral_count U t.
Proof.
  unfold referral_count. case_decide as Hk.
  - subst. by rewrite lookup_insert_eq.
  - by rewrite lookup_insert_ne.
Qed.

Lemma consistent_empty : consistent ∅.
Proof.
  intros U. unfold referral_count, invitees.
  by rewrite lookup_empty, map_filter_empty, map_size_empty.
Qed.

Lemma effect_consistent (c : Call) (w w' : World) :
  effect w c w' → precondition c w → consistent (users w) → consistent (users w').
Proof.
  intros Heff Hpre Hcon.
  destruct Heff as [c|f u Hu|f u i r Hu Hr Hne|f ok i r Hi Hn Hb|f i r Hi Hn Hb];
    simpl in *; try done.
  - intros U. rewrite referral_count_insert, invitees_insert_fresh by done.
    case_decide as HU; [|apply Hcon]. subst U. rewrite <- Hcon.
    unfold referral_count. by rewrite Hu.
  - destruct Hpre as [_ [ri Hi]].
    rewrite (alter_Some add_referral i ri) by by rewrite lookup_insert_ne.
    assert (<[u := set_invited_by i r]> (users w) !! i = Some ri) as Hi'
      by by rewrite lookup_insert_ne.
    intros U. rewrite referral_count_insert.
    rewrite (invitees_update_size U i ri) by done.
    case_decide as HU.
    + subst U. rewrite (invitees_gain i u r) by done.
      simpl. specialize (Hcon i). unfold referral_count in Hcon. rewrite Hi in Hcon. lia.
    + rewrite (invitees_other U i u r) by done.
      rewrite referral_count_insert. case_decide as HuU; [|apply Hcon].
      subst U. simpl. rewrite <- Hcon. unfold referral_count. by rewrite Hu.
  - intros U. rewrite referral_count_insert, (invitees_update_size U i r) by done.
    case_decide as HU; [|apply Hcon]. subst U. simpl. rewrite <- Hcon.
    unfold referral_count. by rewrite Hi.
Qed.

(** C1.  Start from a table in which every user's [referrals] equals the
    number of rows whose [invited_by] is that user (the empty table of
    [init_db] is one).  After any sequence of [add_user],
    [process_referral], [check_and_notify_on_goal] and [get_user_referrals]
    calls, failing ones included, in which both rows exist whenever
    [process_referral] is called, the same holds again for every user. *)
Theorem referral_count_matches_invitees (cs : list Call) (w : World) :
  consistent (users w) →
  preconditions cs w →
  ∀ U : Z,
    referral_count U (users (run cs w)) = Z.of_nat (size (invitees U (users (run cs w)))).
Proof.
  revert w. induction cs as [|c cs IH]; intros w Hcon Hpre; simpl in *; [done|].
  destruct Hpre as [Hc Hcs]. apply IH; [|done].
  apply (effect_consistent c w (call c w)); [apply call_effect | done | done].
Qed.

Lemma referral_count_matches_invitees_witness :
  let cs := [ AddUser no_fault 1; AddUser no_fault 2;
              ProcessReferral no_fault 1 2;
              CheckGoal no_fault true 2;
              AddUser no_fault 3;
              ProcessReferral (λ k, Nat.eqb k 2) 3 2;
              ProcessReferral no_fault 3 2;
              ProcessReferral no_fault 3 1;
              GetReferrals no_fault 2 ] in
  referral_count 2 (users (run cs init_db)) = 2%Z
  ∧ referral_count 2 (users (run cs init_db))
    = Z.of_nat (size (invitees 2 (users (run cs init_db)))).
Proof.
  intros cs. split; [vm_compute; reflexivity|].
  apply (referral_count_matches_invitees cs init_db).
  - apply consistent_empty.
  - vm_compute. repeat split; by eexists.
Defined.

(** ** Goal notification: [check_and_notify_on_goal] *)

Lemma notified_insert (U k : Z) (r' : Row) (t : gmap Z Row) :
  notified U (<[k := r']> t) = if decide (k = U) then goal_notified r' else notified U t.
Proof.
  unfold notified. case_decide as Hk.
  - subst. by rewrite lookup_insert_eq.
  - by rewrite lookup_insert_ne.
Qed.

Lemma notified_update (U k : Z) (r r' : Row) (t : gmap Z Row) :
  t !! k = Some r → goal_achieved_notified r' = goal_achieved_notified r →
  notified U (<[k := r']> t) = notified U t.
Proof.
  intros Hk Hb. rewrite notified_insert. case_decide as HU; [|done].
  subst. unfold notified, goal_notified. by rewrite Hk, Hb.
Qed.

Lemma goal_notified_false (r : Row) :
  goal_notified r = false ↔ goal_achieved_notified r = 0%Z.
Proof. unfold goal_notified. by rewrite negb_false_iff, Z.eqb_eq. Qed.

(** The users table after an accepted attribution keeps every flag. *)
Lemma notified_attribute (U u i : Z) (r : Row) (t : gmap Z Row) :
  t !! u = Some r →
  notified U (alter add_referral i (<[u := set_invited_by i r]> t)) = notified U t.
Proof.
  intros Hu.
  destruct (<[u := set_invited_by i r]> t !! i) as [ri|] eqn:Hi.
  - rewrite (alter_Some add_referral i ri) by done.
    rewrite (notified_update U i ri) by done. by rewrite (notified_update U u r).
  - rewrite alter_None by done. by rewrite (notified_update U u r).
Qed.

Lemma effect_flag (c : Call) (w w' : World) (U : Z) :
  effect w c w' →
  notified U (users w) = false → notified U (users w') = true →
  (∃ f, c = CheckGoal f true U)
  ∧ (REFERRAL_GOAL ≤ referral_count U (users w))%Z
  ∧ (REFERRAL_GOAL ≤ referral_count U (users w'))%Z.
Proof.
  intros Heff Hold Hnew.
  destruct Heff as [c|f u Hu|f u i r Hu Hr Hne|f ok i r Hi Hn Hb|f i r Hi Hn Hb];
    simpl in *; try congruence.
  - rewrite notified_insert in Hnew. case_decide; [done|congruence].
  - rewrite notified_attribute in Hnew by done. congruence.
  - rewrite notified_insert in Hnew. case_decide as HU; [|congruence]. subst U.
    split; [by exists f|]. rewrite referral_count_insert, decide_True by done.
    unfold referral_count. by rewrite Hi.
Qed.

Lemma effect_flag_stable (c : Call) (w w' : World) (U : Z) :
  effect w c w' → notified U (users w) = true → notified U (users w') = true.
Proof.
  intros Heff Hold.
  destruct Heff as [c|f u Hu|f u i r Hu Hr Hne|f ok i r Hi Hn Hb|f i r Hi Hn Hb];
    simpl in *; try done.
  - rewrite notified_insert. case_decide as HU; [|done]. subst U.
    unfold notified in Hold. by rewrite Hu in Hold.
  - by rewrite notified_attribute.
  - rewrite notified_insert. by case_decide.
Qed.

Lemma effect_no_attempt (c : Call) (w w' : World) (U : Z) :
  effect w c w' → notified U (users w) = true → attempts U w' = attempts U w.
Proof.
  intros Heff Hold. unfold attempts.
  destruct Heff as [c|f u Hu|f u i r Hu Hr Hne|f ok i r Hi Hn Hb|f i r Hi Hn Hb];
    simpl sent; try done.
  all: apply count_occ_cons_neq; intros ->.
  all: unfold notified in Hold; rewrite Hi in Hold.
  all: apply goal_notified_false in Hb; congruence.
Qed.

Lemma flips_bound (U : Z) (cs : list Call) (w : World) :
  flips U cs w ≤ if notified U (users w) then 0 else 1.
Proof.
  revert w. induction cs as [|c cs IH]; intros w; simpl.
  - destruct (notified U (users w)); lia.
  - specialize (IH (call c w)).
    destruct (notified U (users w)) eqn:Hold; simpl.
    + rewrite (effect_flag_stable c w (call c w) U) in IH by (done || apply call_effect).
      lia.
    + destruct (notified U (users (call c w))); lia.
Qed.

Lemma run_flag_stable (U : Z) (cs : list Call) (w : World) :
  notified U (users w) = true →
  notified U (users (run cs w)) = true ∧ attempts U (run cs w) = attempts U w.
Proof.
  revert w. induction cs as [|c cs IH]; intros w Hold; simpl; [done|].
  pose proof (call_effect c w) as Heff.
  destruct (IH (call c w)) as [H1 H2]; [by apply (effect_flag_stable c w)|].
  split; [done|]. rewrite H2. by apply (effect_no_attempt c).
Qed.

Lemma check_pending (f : faults) (ok : bool) (i : Z) (w : World) (r : Row) :
  users w !! i = Some r →
  (REFERRAL_GOAL ≤ referrals r)%Z → goal_notified r = false →
  check_and_notify_on_goal f ok i w =
    if f 0%nat then (Raises, w)
    else (Returns (),
          {| users := if ok && negb (f 1%nat) && negb (f 2%nat)
                      then <[i := set_notified r]> (users w) else users w;
             sent := i :: sent w |}).
Proof.
  intros Hi Hn Hb. rewrite check_and_notify_on_goal_eq.
  unfold select_referrals_notified. rewrite Hi. cbn.
  assert (goal_pending (referrals r) (goal_achieved_notified r) = true) as ->.
  { apply goal_pending_true. split; [done|]. by apply goal_notified_false. }
  unfold update_goal_achieved_notified. by rewrite (alter_Some _ _ r).
Qed.

(** C4.  With [REFERRAL_GOAL = 10]:
    (a) for an inviter whose row has [referrals >= REFERRAL_GOAL] and a
        false flag, [check_and_notify_on_goal] calls [bot.send_message] for
        that inviter and, when the delivery succeeds, stores the flag as
        true, changing nothing else;
    (b) whenever a call turns some user's flag from false to true, the call
        is a [check_and_notify_on_goal] for that user with a successful
        delivery, and the user's [referrals] is at least [REFERRAL_GOAL]
        before and after it;
    (c) along any sequence of calls the flag of a user goes from false to
        true at most once;
    (d) once the flag of a user is true, it stays true and no later call,
        attribution or evaluation, calls [bot.send_message] for that user. *)
Theorem goal_notified_once :
  REFERRAL_GOAL = 10%Z
  ∧ (∀ (ok : bool) (inviter_id : Z) (w : World) (r : Row),
       users w !! inviter_id = Some r →
       (REFERRAL_GOAL ≤ referrals r)%Z →
       goal_notified r = false →
       check_and_notify_on_goal no_fault ok inviter_id w =
         (Returns (),
          {| users := if ok
                      then <[inviter_id := {| invited_by := invited_by r;
                                              referrals := referrals r;
                                              goal_achieved_notified := 1 |}]> (users w)
                      else users w;
             sent := inviter_id :: sent w |})
       ∧ attempts inviter_id (check_and_notify_on_goal no_fault ok inviter_id w).2
         = S (attempts inviter_id w)
       ∧ (ok = true →
          notified inviter_id (users (check_and_notify_on_goal no_fault ok inviter_id w).2)
          = true))
  ∧ (∀ (c : Call) (w : World) (U : Z),
       notified U (users w) = false →
       notified U (users (call c w)) = true →
       (∃ f, c = CheckGoal f true U)
       ∧ (REFERRAL_GOAL ≤ referral_count U (users w))%Z
       ∧ (REFERRAL_GOAL ≤ referral_count U (users (call c w)))%Z)
  ∧ (∀ (cs : list Call) (w : World) (U : Z), flips U cs w ≤ 1)
  ∧ (∀ (cs : list Call) (w : World) (U : Z),
       notified U (users w) = true →
       notified U (users (run cs w)) = true
       ∧ attempts U (run cs w) = attempts U w).
Proof.
  split; [done|]. split; [|split; [|split]].
  - intros ok i w r Hi Hn Hb. rewrite (check_pending no_fault ok i w r) by done.
    simpl. rewrite !andb_true_r. split; [done|]. split.
    + unfold attempts. simpl. by destruct (Z.eq_dec i i).
    + intros ->. by rewrite notified_insert, decide_True.
  - intros c w U Hold Hnew. apply (effect_flag c w (call c w) U); [apply call_effect|done..].
  - intros cs w U. pose proof (flips_bound U cs w) as Hb.
    destruct (notified U (users w)); lia.
  - intros cs w U. apply run_flag_stable.
Qed.

Lemma goal_notified_once_witness :
  let w := run ten_arrivals init_db in
  users w !! 100%Z = Some (mkRow None 10 0)
  ∧ sent w = []
  ∧ check_and_notify_on_goal no_fault true 100 w =
      (Returns (),
       {| users := <[100%Z := mkRow None 10 1]> (users w); sent := [100%Z] |})
  ∧ attempts 100
      (run (arrival 11 100 ++ [CheckGoal no_fault true 100])
         (check_and_notify_on_goal no_fault true 100 w).2) = 1.
Proof.
  intros w.
  assert (users w !! 100%Z = Some (mkRow None 10 0)) as Hrow by (vm_compute; reflexivity).
  assert (sent w = []) as Hsent by (vm_compute; reflexivity).
  destruct goal_notified_once as (_ & Ha & _ & _ & Hd).
  destruct (Ha true 100%Z w (mkRow None 10 0)) as (Hcall & Hatt & Hflag);
    [ exact Hrow | vm_compute; discriminate | reflexivity | ].
  split; [exact Hrow|]. split; [exact Hsent|]. split.
  - rewrite Hcall, Hsent. reflexivity.
  - destruct (Hd (arrival 11 100 ++ [CheckGoal no_fault true 100])
                (check_and_notify_on_goal no_fault true 100 w).2 100%Z) as [_ Hsame];
      [ by apply Hflag | ].
    rewrite Hsame, Hatt. unfold attempts. by rewrite Hsent.
Defined.

(** C5.  For an inviter whose row has [referrals >= REFERRAL_GOAL] and a
    false flag, a [check_and_notify_on_goal] whose [bot.send_message] fails
    returns normally, with the table exactly as before (the flag still
    false); the only trace is the attempted delivery.  A later
    [check_and_notify_on_goal] for the same inviter calls
    [bot.send_message] again, and stores the flag when that delivery
    succeeds. *)
Theorem failed_notification_retried (f : faults) (inviter_id : Z) (w : World) (r : Row) :
  users w !! inviter_id = Some r →
  (REFERRAL_GOAL ≤ referrals r)%Z →
  goal_notified r = false →
  f 0%nat = false →
  let w1 := (check_and_notify_on_goal f false inviter_id w).2 in
  check_and_notify_on_goal f false inviter_id w =
    (Returns (), {| users := users w; sent := inviter_id :: sent w |})
  ∧ notified inviter_id (users w1) = false
  ∧ ∀ ok : bool,
      check_and_notify_on_goal no_fault ok inviter_id w1 =
        (Returns (),
         {| users := if ok
                     then <[inviter_id := {| invited_by := invited_by r;
                                             referrals := referrals r;
                                             goal_achieved_notified := 1 |}]> (users w)
                     else users w;
            sent := inviter_id :: inviter_id :: sent w |}).
Proof.
  intros Hi Hn Hb Hf w1. unfold w1.
  rewrite (check_pending f false inviter_id w r) by done. rewrite Hf. simpl.
  split; [done|]. split.
  - unfold notified. by rewrite Hi.
  - intros ok. rewrite (check_pending no_fault ok inviter_id _ r) by done.
    simpl. by rewrite !andb_true_r.
Qed.

Lemma failed_notification_retried_witness :
  let w := run ten_arrivals init_db in
  let w1 := (check_and_notify_on_goal no_fault false 100 w).2 in
  check_and_notify_on_goal no_fault false 100 w =
    (Returns (), {| users := users w; sent := [100%Z] |})
  ∧ check_and_notify_on_goal no_fault true 100 w1 =
    (Returns (),
     {| users := <[100%Z := mkRow None 10 1]> (users w); sent := [100%Z; 100%Z] |}).
Proof.
  intros w w1.
  assert (sent w = []) as Hsent by (vm_compute; reflexivity).
  destruct (failed_notification_retried no_fault 100 w (mkRow None 10 0))
    as (Hfail & _ & Hretry);
    [ vm_compute; reflexivity | vm_compute; discriminate | reflexivity | reflexivity | ].
  split.
  - rewrite Hfail, Hsent. reflexivity.
  - unfold w1. rewrite (Hretry true), Hsent. reflexivity.
Defined.

(** A task that takes both steps undisturbed is a [process_referral] call. *)
Lemma steps_process_referral (u i : Z) (w : World) :
  let '(k1, t1) := Interleaving.step (Interleaving.Start u i) (users w) in
  let '(k2, t2) := Interleaving.step k1 t1 in
  ∃ b : bool,
    k2 = Interleaving.Done b
    ∧ process_referral no_fault u i w = (Returns b, {| users := t2; sent := sent w |}).
Proof.
  simpl. rewrite process_referral_eq. simpl.
  destruct (may_attribute _ _ _).
  - by exists true.
  - exists false. by rewrite world_eta.
Qed.

Lemma attributed_table (u i : Z) (r ri : Row) (t : gmap Z Row) :
  t !! u = Some r → t !! i = Some ri → u ≠ i →
  update_referrals i (update_invited_by i u t)
  = <[i := add_referral ri]> (<[u := set_invited_by i r]> t).
Proof.
  intros Hu Hi Hne. unfold update_referrals, update_invited_by.
  rewrite (alter_Some (set_invited_by i) u r) by done.
  rewrite (alter_Some add_referral i ri); [done|]. by rewrite lookup_insert_ne.
Qed.

Lemma may_attribute_free (u i : Z) : u ≠ i → may_attribute (Some None) u i = true.
Proof. intros Hne. by apply may_attribute_true. Qed.

Section Race.
Import Interleaving.

Variables (A B C : Z) (t : gmap Z Row) (r rb rc : Row).
Hypothesis HA : t !! A = Some r.
Hypothesis HB : t !! B = Some rb.
Hypothesis HC : t !! C = Some rc.
Hypothesis Hfree : invited_by r = None.
Hypothesis HAB : A ≠ B.
Hypothesis HAC : A ≠ C.
Hypothesis HBC : B ≠ C.

Lemma select_free : select_invited_by A t = Some None.
Proof using HA Hfree. unfold select_invited_by. rewrite HA. cbn. by rewrite Hfree. Qed.

Ltac lookups :=
  repeat first
    [ rewrite lookup_insert_eq
    | rewrite lookup_insert_ne by done
    | rewrite HA | rewrite HB | rewrite HC ].

Ltac attribute_step i rw ri :=
  rewrite (attributed_table A i rw ri) by (done || by lookups).

Lemma race_first_then_second :
  verdict A B C (exec [false; false; true; true] (pool0 A B C t))
  = (Done true, Done false, Some (Some B), (referrals rb + 1)%Z, referrals rc).
Proof using All.
  unfold verdict, pool0. cbn [exec step first second table].
  rewrite select_free, (may_attribute_free A B) by done.
  cbn [exec step first second table].
  attribute_step B r rb.
  assert (select_invited_by A (<[B:=add_referral rb]> (<[A:=set_invited_by B r]> t))
          = Some (Some B)) as -> by (unfold select_invited_by; by lookups).
  cbn. unfold referral_count. by lookups.
Qed.

Lemma race_second_then_first :
  verdict A B C (exec [true; true; false; false] (pool0 A B C t))
  = (Done false, Done true, Some (Some C), referrals rb, (referrals rc + 1)%Z).
Proof using All.
  unfold verdict, pool0. cbn [exec step first second table].
  rewrite select_free, (may_attribute_free A C) by done.
  cbn [exec step first second table].
  attribute_step C r rc.
  assert (select_invited_by A (<[C:=add_referral rc]> (<[A:=set_invited_by C r]> t))
          = Some (Some C)) as -> by (unfold select_invited_by; by lookups).
  cbn. unfold referral_count. by lookups.
Qed.

(** Both reads come before both writes: both guards pass, and the later
    write to [invited_by] replaces the earlier one. *)
Lemma race_reads_first (s : list bool) :
  s = [false; true; false; true] ∨ s = [true; false; false; true] →
  verdict A B C (exec s (pool0 A B C t))
  = (Done true, Done true, Some (Some C), (referrals rb + 1)%Z, (referrals rc + 1)%Z).
Proof using All.
  intros [-> | ->]; unfold verdict, pool0; cbn [exec step first second table].
  all: rewrite select_free, (may_attribute_free A B), (may_attribute_free A C) by done.
  all: cbn [exec step first second table].
  all: attribute_step B r rb.
  all: attribute_step C (set_invited_by B r) rc.
  all: unfold referral_count; by lookups.
Qed.

Lemma race_reads_first_swapped (s : list bool) :
  s = [false; true; true; false] ∨ s = [true; false; true; false] →
  verdict A B C (exec s (pool0 A B C t))
  = (Done true, Done true, Some (Some B), (referrals rb + 1)%Z, (referrals rc + 1)%Z).
Proof using All.
  intros [-> | ->]; unfold verdict, pool0; cbn [exec step first second table].
  all: rewrite select_free, (may_attribute_free A B), (may_attribute_free A C) by done.
  all: cbn [exec step first second table].
  all: attribute_step C r rc.
  all: attribute_step B (set_invited_by C r) rb.
  all: unfold referral_count; by lookups.
Qed.

End Race.

Lemma count_occ_bool (s : list bool) :
  count_occ bool_dec s false + count_occ bool_dec s true = length s.
Proof.
  induction s as [|[] s IH]; simpl; [done| |]; lia.
Qed.

Lemma complete_cases (s : list bool) :
  Interleaving.complete s →
  s = [false; false; true; true] ∨ s = [true; true; false; false]
  ∨ s = [false; true; false; true] ∨ s = [true; false; false; true]
  ∨ s = [false; true; true; false] ∨ s = [true; false; true; false].
Proof.
  intros [Hf Ht]. pose proof (count_occ_bool s) as Hlen. rewrite Hf, Ht in Hlen.
  destruct s as [|a [|b [|c [|d [|e s]]]]]; simpl in Hlen; try lia.
  destruct a, b, c, d; simpl in Hf, Ht; try lia; auto 10.
Qed.

(** C7, as amended.  [process_referral] reads [invited_by] and writes it in
    separate statements with a suspension between them; it is not a
    compare-and-swap.  Take two calls in flight for the same new user A,
    whose [invited_by] is NULL, with inviters B and C, all three rows
    present and the three ids different, and any schedule in which each
    call takes its two steps.  When one call runs to its end before the
    other starts, exactly that call returns [True], the other reads the
    stored [invited_by] and returns [False], and only the winner's
    [referrals] is one higher.  In every other schedule both calls return
    [True] and both counters are one higher, while A's [invited_by] holds
    one of the two inviters. *)
Theorem attribution_race_outcomes (A B C : Z) (t : gmap Z Row) (r rb rc : Row)
    (s : list bool) :
  t !! A = Some r → t !! B = Some rb → t !! C = Some rc →
  invited_by r = None →
  A ≠ B → A ≠ C → B ≠ C →
  Interleaving.complete s →
  let v := verdict A B C (Interleaving.exec s (pool0 A B C t)) in
  if Interleaving.serial s
  then v = (Interleaving.Done true, Interleaving.Done false, Some (Some B),
            (referrals rb + 1)%Z, referrals rc)
       ∨ v = (Interleaving.Done false, Interleaving.Done true, Some (Some C),
              referrals rb, (referrals rc + 1)%Z)
  else ∃ X : Z,
         (X = B ∨ X = C)
         ∧ v = (Interleaving.Done true, Interleaving.Done true, Some (Some X),
                (referrals rb + 1)%Z, (referrals rc + 1)%Z).
Proof.
  intros HA HB HC Hfree HAB HAC HBC Hs v. unfold v.
  destruct (complete_cases s Hs) as [-> | [-> | [-> | [-> | [-> | ->]]]]];
    cbn [Interleaving.serial bool_decide orb]; simpl Interleaving.serial.
  - left. by apply (race_first_then_second A B C t r rb rc).
  - right. by apply (race_second_then_first A B C t r rb rc).
  - exists C. split; [by right|].
    apply (race_reads_first A B C t r rb rc); auto.
  - exists C. split; [by right|].
    apply (race_reads_first A B C t r rb rc); auto.
  - exists B. split; [by left|].
    apply (race_reads_first_swapped A B C t r rb rc); auto.
  - exists B. split; [by left|].
    apply (race_reads_first_swapped A B C t r rb rc); auto.
Qed.

Lemma attribution_race_outcomes_witness :
  let t : gmap Z Row := {[1%Z := default_row; 2%Z := default_row; 3%Z := default_row]} in
  verdict 1 2 3 (Interleaving.exec [false; false; true; true] (pool0 1 2 3 t))
  = (Interleaving.Done true, Interleaving.Done false, Some (Some 2%Z), 1%Z, 0%Z).
Proof.
  intros t.
  destruct (attribution_race_outcomes 1 2 3 t default_row default_row default_row
              [false; false; true; true]) as [H | H];
    [ reflexivity | reflexivity | reflexivity | reflexivity | lia | lia | lia
    | split; reflexivity | exact H | vm_compute in H; discriminate H ].
Defined.

(** C7, as first stated, fails: when both calls have read the NULL
    [invited_by] of user 1 before either writes, both return [True]; users
    2 and 3 are both credited with a referral, while the single row of user
    1 names only one of them. *)
Lemma attribution_race_counterexample :
  let t : gmap Z Row := {[1%Z := default_row; 2%Z := default_row; 3%Z := default_row]} in
  let p := Interleaving.exec [false; true; false; true]
             {| Interleaving.first := Interleaving.Start 1 2;
                Interleaving.second := Interleaving.Start 1 3;
                Interleaving.table := t |} in
  Interleaving.first p = Interleaving.Done true
  ∧ Interleaving.second p = Interleaving.Done true
  ∧ Interleaving.table p !! 1%Z = Some (mkRow (Some 3%Z) 0 0)
  ∧ referral_count 2 (Interleaving.table p) = 1%Z
  ∧ referral_count 3 (Interleaving.table p) = 1%Z
  ∧ size (invitees 2 (Interleaving.table p)) = 0.
Proof.
  vm_compute. repeat split.
Qed.

(** * Further properties of the database functions *)

(** ** When [process_referral] credits *)

(** X1.  Without storage failures [process_referral] never raises; it returns
    [True] exactly when the new user has a row whose [invited_by] is NULL
    and [user_id ≠ inviter_id]; a call that returns [False] (no row for the
    new user included) leaves the world as it was. *)
Theorem process_referral_decides (user_id inviter_id : Z) (w : World) :
  ∃ credited : bool,
    process_referral no_fault user_id inviter_id w =
      (Returns credited,
       if credited
       then {| users := update_referrals inviter_id
                          (update_invited_by inviter_id user_id (users w));
               sent := sent w |}
       else w)
    ∧ (credited = true ↔
       (∃ r, users w !! user_id = Some r ∧ invited_by r = None)
       ∧ user_id ≠ inviter_id).
Proof.
  exists (may_attribute (select_invited_by user_id (users w)) user_id inviter_id).
  rewrite process_referral_eq. simpl. split.
  - by destruct (may_attribute _ _ _).
  - rewrite may_attribute_true. unfold select_invited_by.
    destruct (users w !! user_id) as [r|]; simpl.
    + split.
      * intros [[= Hr] Hne]. split; [by exists r|done].
      * intros [(r' & [= <-] & Hr) Hne]. by rewrite Hr.
    + split; [by intros [[=] _]|]. by intros [(r' & [=] & _) _].
Qed.

(** X2.  Two users without an inviter can credit each other: after
    [process_referral(A, B)] the call [process_referral(B, A)] is accepted
    as well, and each ends up as the other's inviter with one referral
    more. *)
Theorem mutual_referral_accepted (A B : Z) (w : World) (ra rb : Row) :
  A ≠ B →
  users w !! A = Some ra → invited_by ra = None →
  users w !! B = Some rb → invited_by rb = None →
  let w1 := (process_referral no_fault A B w).2 in
  let w2 := (process_referral no_fault B A w1).2 in
  (process_referral no_fault A B w).1 = Returns true
  ∧ (process_referral no_fault B A w1).1 = Returns true
  ∧ users w2 !! A = Some {| invited_by := Some B;
                            referrals := referrals ra + 1;
                            goal_achieved_notified := goal_achieved_notified ra |}
  ∧ users w2 !! B = Some {| invited_by := Some A;
                            referrals := referrals rb + 1;
                            goal_achieved_notified := goal_achieved_notified rb |}.
Proof.
  intros Hne HA Hra HB Hrb w1 w2. unfold w2, w1.
  rewrite (process_referral_accepts no_fault A B w ra) by done. simpl.
  rewrite (alter_Some add_referral B rb) by by rewrite lookup_insert_ne.
  rewrite (process_referral_accepts no_fault B A _ (add_referral rb));
    [ | simpl; by rewrite lookup_insert_eq | done | done ].
  simpl. split; [done|]. split; [done|].
  rewrite (alter_Some add_referral A (set_invited_by B ra)).
  - rewrite lookup_insert_eq. split; [done|].
    by rewrite lookup_insert_ne, lookup_insert_eq.
  - by rewrite lookup_insert_ne, lookup_insert_ne, lookup_insert_eq.
Qed.

Lemma mutual_referral_accepted_witness :
  let w := {| users := {[1%Z := default_row; 2%Z := default_row]}; sent := [] |} in
  let w2 := (process_referral no_fault 2 1 (process_referral no_fault 1 2 w).2).2 in
  users w2 !! 1%Z = Some (mkRow (Some 2%Z) 1 0)
  ∧ users w2 !! 2%Z = Some (mkRow (Some 1%Z) 1 0).
Proof.
  intros w w2.
  destruct (mutual_referral_accepted 1 2 w default_row default_row)
    as (_ & _ & H1 & H2);
    [ lia | reflexivity | reflexivity | reflexivity | reflexivity | ].
  split; [exact H1 | exact H2].
Defined.

(** ** Failures *)

(** X3.  A database function that raises leaves the world as it was, whichever
    of its storage operations failed; [check_and_notify_on_goal] raises
    only when its SELECT fails. *)
Theorem raising_call_changes_nothing (f : faults) (ok : bool) (u i : Z) (w : World) :
  ((add_user f u w).1 = Raises → (add_user f u w).2 = w)
  ∧ ((process_referral f u i w).1 = Raises → (process_referral f u i w).2 = w)
  ∧ ((check_and_notify_on_goal f ok i w).1 = Raises ↔ f 0%nat = true)
  ∧ ((check_and_notify_on_goal f ok i w).1 = Raises →
     (check_and_notify_on_goal f ok i w).2 = w)
  ∧ ((get_user_referrals f u w).1 = Raises → (get_user_referrals f u w).2 = w).
Proof.
  rewrite add_user_eq, process_referral_eq, check_and_notify_on_goal_eq,
    get_user_referrals_eq.
  split; [|split; [|split; [|split]]].
  - by destruct (f 0%nat || f 1%nat).
  - destruct (f 0%nat); [done|]. destruct (may_attribute _ _ _); [|done].
    by destruct (f 1%nat || f 2%nat || f 3%nat).
  - destruct (f 0%nat); [done|].
    destruct (select_referrals_notified i (users w)) as [[n b]|]; [|done].
    by destruct (goal_pending n b).
  - destruct (f 0%nat); [done|].
    destruct (select_referrals_notified i (users w)) as [[n b]|]; [|done].
    by destruct (goal_pending n b).
  - by destruct (f 0%nat).
Qed.

Lemma raising_call_changes_nothing_witness :
  let w := {| users := {[1%Z := default_row; 2%Z := default_row]}; sent := [] |} in
  (process_referral (λ k, Nat.eqb k 2) 1 2 w).2 = w.
Proof.
  intros w.
  destruct (raising_call_changes_nothing (λ k, Nat.eqb k 2) true 1 2 w)
    as (_ & H & _).
  apply H. reflexivity.
Defined.

(** ** [check_and_notify_on_goal] away from the goal *)

(** X4.  When the inviter has no row, or fewer than [REFERRAL_GOAL] referrals,
    or a flag that is already true, [check_and_notify_on_goal] sends
    nothing and leaves the world as it was. *)
Theorem check_idle (f : faults) (ok : bool) (inviter_id : Z) (w : World) :
  (∀ r, users w !! inviter_id = Some r →
        (referrals r < REFERRAL_GOAL)%Z ∨ goal_notified r = true) →
  check_and_notify_on_goal f ok inviter_id w =
    (if f 0%nat then Raises else Returns (), w).
Proof.
  intros Hidle. rewrite check_and_notify_on_goal_eq. unfold select_referrals_notified.
  destruct (f 0%nat); [done|].
  destruct (users w !! inviter_id) as [r|]; simpl; [|done].
  destruct (goal_pending _ _) eqn:Hp; [|done].
  apply goal_pending_true in Hp as [Hn Hb]. apply goal_notified_false in Hb.
  destruct (Hidle r eq_refl) as [Hlt | Hflag]; [lia | congruence].
Qed.

Lemma check_idle_witness :
  let w := {| users := {[1%Z := mkRow None 9 0; 2%Z := mkRow None 12 1]}; sent := [] |} in
  check_and_notify_on_goal no_fault true 1 w = (Returns (), w)
  ∧ check_and_notify_on_goal no_fault true 2 w = (Returns (), w)
  ∧ check_and_notify_on_goal no_fault true 3 w = (Returns (), w).
Proof.
  intros w. split; [|split].
  - apply (check_idle no_fault true 1 w). intros r [= <-]. left. reflexivity.
  - apply (check_idle no_fault true 2 w). intros r [= <-]. right. reflexivity.
  - apply (check_idle no_fault true 3 w). intros r [=].
Defined.

(** X5.  When the message for a pending goal is delivered but the flag cannot
    be stored (the UPDATE or the commit raises), the [except] clause takes
    the storage error as well: the call returns normally, the flag is still
    false, and the next check sends the message a second time. *)
Theorem flag_write_failure_resends (f : faults) (inviter_id : Z) (w : World) (r : Row) :
  users w !! inviter_id = Some r →
  (REFERRAL_GOAL ≤ referrals r)%Z →
  goal_notified r = false →
  f 0%nat = false →
  f 1%nat = true ∨ f 2%nat = true →
  let w1 := (check_and_notify_on_goal f true inviter_id w).2 in
  check_and_notify_on_goal f true inviter_id w =
    (Returns (), {| users := users w; sent := inviter_id :: sent w |})
  ∧ attempts inviter_id (check_and_notify_on_goal no_fault true inviter_id w1).2
    = S (S (attempts inviter_id w)).
Proof.
  intros Hi Hn Hb Hf0 Hf12 w1. unfold w1.
  rewrite (check_pending f true inviter_id w r) by done. rewrite Hf0.
  assert (true && negb (f 1%nat) && negb (f 2%nat) = false) as ->.
  { destruct Hf12 as [-> | ->]; simpl; [done|]. by rewrite andb_false_r. }
  simpl. split; [done|].
  rewrite (check_pending no_fault true inviter_id _ r) by done. simpl.
  unfold attempts. simpl. by destruct (Z.eq_dec inviter_id inviter_id).
Qed.

Lemma flag_write_failure_resends_witness :
  let w := run ten_arrivals init_db in
  let w1 := (check_and_notify_on_goal (λ k, Nat.eqb k 2) true 100 w).2 in
  users w1 = users w
  ∧ sent (check_and_notify_on_goal no_fault true 100 w1).2 = [100%Z; 100%Z].
Proof.
  intros w w1.
  destruct (flag_write_failure_resends (λ k, Nat.eqb k 2) 100 w (mkRow None 10 0))
    as [Hcall _];
    [ vm_compute; reflexivity | vm_compute; discriminate | reflexivity | reflexivity
    | by right | ].
  unfold w1. rewrite Hcall. split; [reflexivity|]. vm_compute. reflexivity.
Defined.

(** ** Registration order *)

(** X6.  Registering two users gives the same table in either order. *)
Theorem add_user_commutes (u v : Z) (w : World) :
  (add_user no_fault u (add_user no_fault v w).2).2
  = (add_user no_fault v (add_user no_fault u w).2).2.
Proof.
  rewrite !add_user_eq. simpl. f_equal. unfold insert_or_ignore.
  destruct (decide (u = v)) as [->|Hne]; [done|].
  destruct (users w !! u) as [ru|] eqn:Hu, (users w !! v) as [rv|] eqn:Hv;
    rewrite ?Hu, ?Hv, ?lookup_insert_ne, ?Hu, ?Hv by done; try done.
  by apply insert_insert_ne.
Qed.

(** * Invariants of runs *)

(** ** What a call does to one row *)

Lemma effect_row (c : Call) (w w' : World) (U : Z) (r : Row) :
  effect w c w' → users w !! U = Some r →
  ∃ r', users w' !! U = Some r'
    ∧ (invited_by r = None ∨ invited_by r' = invited_by r)
    ∧ (referrals r' = referrals r
       ∨ (referrals r' = (referrals r + 1)%Z ∧ ∃ f u, c = ProcessReferral f u U))
    ∧ (goal_notified r = true → goal_notified r' = true).
Proof.
  intros Heff HU.
  destruct Heff as [c|f u Hu|f u i r0 Hu Hr Hne|f ok i r0 Hi Hn Hb|f i r0 Hi Hn Hb];
    simpl.
  - exists r. auto.
  - exists r. rewrite lookup_insert_ne by congruence. auto.
  - destruct (decide (U = i)) as [->|HUi].
    + exists (add_referral r). rewrite lookup_alter_eq, lookup_insert_ne, HU by done.
      simpl. split; [done|]. split; [by right|]. split; [|done].
      right. split; [done|]. by exists f, u.
    + rewrite lookup_alter_ne by done. destruct (decide (U = u)) as [->|HUu].
      * exists (set_invited_by i r0). rewrite lookup_insert_eq.
        assert (r0 = r) as -> by congruence. simpl. auto.
      * exists r. rewrite lookup_insert_ne by done. auto.
  - exists r. auto.
  - destruct (decide (U = i)) as [->|HUi].
    + exists (set_notified r0). rewrite lookup_insert_eq.
      assert (r0 = r) as -> by congruence. simpl. auto.
    + exists r. rewrite lookup_insert_ne by done. auto.
Qed.

Lemma run_row (cs : list Call) (w : World) (U : Z) (r : Row) :
  users w !! U = Some r →
  ∃ r', users (run cs w) !! U = Some r'
    ∧ (invited_by r = None ∨ invited_by r' = invited_by r)
    ∧ (referrals r ≤ referrals r' ≤ referrals r + Z.of_nat (credits U cs))%Z
    ∧ (goal_notified r = true → goal_notified r' = true).
Proof.
  revert w r. induction cs as [|c cs IH]; intros w r HU; simpl run.
  - exists r. simpl. repeat split; auto; lia.
  - destruct (effect_row c w (call c w) U r (call_effect c w) HU)
      as (r1 & H1 & Hinv1 & Href1 & Hflag1).
    destruct (IH (call c w) r1 H1) as (r2 & H2 & Hinv2 & Href2 & Hflag2).
    exists r2. split; [done|]. split; [|split].
    + destruct Hinv1 as [?|Heq1]; [by left|].
      destruct Hinv2 as [Hn|Heq2]; [left; congruence|right; congruence].
    + destruct Href1 as [Heq|[Heq (f & u & ->)]]; simpl credits.
      * destruct c as [| ? ? i | |]; simpl credits; lia.
      * rewrite Z.eqb_refl. lia.
    + auto.
Qed.

(** X7.  Once a row has an inviter, no sequence of calls changes or removes
    it. *)
Theorem invited_by_never_changes (cs : list Call) (w : World) (U b : Z) (r : Row) :
  users w !! U = Some r →
  invited_by r = Some b →
  invited_by <$> users (run cs w) !! U = Some (Some b).
Proof.
  intros HU Hb. destruct (run_row cs w U r HU) as (r' & -> & [Hn|Heq] & _).
  - congruence.
  - simpl. congruence.
Qed.

Lemma invited_by_never_changes_witness :
  let w := {| users := {[1%Z := mkRow (Some 2%Z) 0 0; 2%Z := mkRow None 1 0;
                         3%Z := default_row]}; sent := [] |} in
  invited_by <$> users (run [ProcessReferral no_fault 1 3; AddUser no_fault 1;
                             ProcessReferral no_fault 3 1; CheckGoal no_fault true 1] w)
                 !! 1%Z = Some (Some 2%Z).
Proof.
  intros w. apply (invited_by_never_changes _ w 1 2 (mkRow (Some 2%Z) 0 0)); reflexivity.
Defined.

(** X8.  No sequence of calls removes a row or lowers its counter, and the
    counter of a user grows by at most one for each [process_referral] call
    that names the user as inviter. *)
Theorem counter_grows_with_credits (cs : list Call) (w : World) (U : Z) (r : Row) :
  users w !! U = Some r →
  ∃ r', users (run cs w) !! U = Some r'
    ∧ (referrals r ≤ referrals r' ≤ referrals r + Z.of_nat (credits U cs))%Z.
Proof.
  intros HU. destruct (run_row cs w U r HU) as (r' & H1 & _ & H2 & _). by exists r'.
Qed.

Lemma counter_grows_with_credits_witness :
  let w := {| users := {[1%Z := default_row; 2%Z := mkRow None 4 0; 3%Z := default_row]};
              sent := [] |} in
  let cs := [ProcessReferral no_fault 1 2; ProcessReferral no_fault 1 2;
             ProcessReferral no_fault 3 2; CheckGoal no_fault true 2] in
  ∃ r', users (run cs w) !! 2%Z = Some r' ∧ (4 ≤ referrals r' ≤ 4 + 3)%Z.
Proof.
  intros w cs. apply (counter_grows_with_credits cs w 2 (mkRow None 4 0)). reflexivity.
Defined.

(** ** Invariants of the table and of the notifications *)

Lemma effect_no_self (c : Call) (w w' : World) :
  effect w c w' → no_self_referral (users w) → no_self_referral (users w').
Proof.
  intros Heff Hno U r' HU'.
  destruct Heff as [c|f u Hu|f u i r0 Hu Hr Hne|f ok i r0 Hi Hn Hb|f i r0 Hi Hn Hb];
    simpl in HU'; try by apply (Hno U r').
  - destruct (decide (u = U)) as [->|HuU].
    + rewrite lookup_insert_eq in HU'. by injection HU' as <-.
    + rewrite lookup_insert_ne in HU' by done. by apply (Hno U r').
  - destruct (decide (i = U)) as [->|HiU].
    + rewrite lookup_alter_eq, lookup_insert_ne in HU' by done.
      destruct (users w !! U) as [ri|] eqn:HUw; [|done].
      injection HU' as <-. simpl. by apply (Hno U ri).
    + rewrite lookup_alter_ne in HU' by done.
      destruct (decide (u = U)) as [->|HuU].
      * rewrite lookup_insert_eq in HU'. injection HU' as <-. simpl. congruence.
      * rewrite lookup_insert_ne in HU' by done. by apply (Hno U r').
  - destruct (decide (i = U)) as [->|HiU].
    + rewrite lookup_insert_eq in HU'. injection HU' as <-. simpl. by apply (Hno U r0).
    + rewrite lookup_insert_ne in HU' by done. by apply (Hno U r').
Qed.

Lemma run_no_self (cs : list Call) (w : World) :
  no_self_referral (users w) → no_self_referral (users (run cs w)).
Proof.
  revert w. induction cs as [|c cs IH]; intros w Hno; simpl; [done|].
  apply IH. apply (effect_no_self c w (call c w)); [apply call_effect | done].
Qed.

(** X9.  No sequence of calls makes a user their own inviter. *)
Theorem no_self_referral_kept (cs : list Call) (w : World) :
  no_self_referral (users w) → no_self_referral (users (run cs w)).
Proof. apply run_no_self. Qed.

Lemma no_self_referral_kept_witness :
  no_self_referral
    (users (run [AddUser no_fault 1; ProcessReferral no_fault 1 1;
                 AddUser no_fault 2; ProcessReferral no_fault 1 2;
                 ProcessReferral no_fault 2 2] init_db)).
Proof.
  apply no_self_referral_kept. intros U r.
  change (users init_db) with (∅ : gmap Z Row). by rewrite lookup_empty.
Defined.

Lemma effect_never_over_credited (c : Call) (w w' : World) :
  effect w c w' → never_over_credited (users w) → never_over_credited (users w').
Proof.
  intros Heff Hcon.
  destruct Heff as [c|f u Hu|f u i r Hu Hr Hne|f ok i r Hi Hn Hb|f i r Hi Hn Hb];
    simpl; try done.
  - intros U. rewrite referral_count_insert, invitees_insert_fresh by done.
    case_decide as HU; [|apply Hcon]. subst U. simpl.
    specialize (Hcon u). lia.
  - assert (∀ U, (0 ≤ referral_count U (<[u := set_invited_by i r]> (users w))
                  ≤ Z.of_nat (size (invitees U (<[u := set_invited_by i r]> (users w))))
                    - (if decide (i = U) then 1 else 0))%Z) as Hmid.
    { intros U. rewrite referral_count_insert.
      assert (referral_count U (users w)
              = if decide (u = U) then referrals (set_invited_by i r)
                else referral_count U (users w)) as <-.
      { destruct (decide (u = U)) as [<-|HuU]; [|done].
        unfold referral_count. by rewrite Hu. }
      specialize (Hcon U). destruct (decide (i = U)) as [<-|HUi].
      - rewrite (invitees_gain i u r) by done. lia.
      - rewrite (invitees_other U i u r) by done. lia. }
    destruct (<[u := set_invited_by i r]> (users w) !! i) as [ri|] eqn:Hi.
    + rewrite (alter_Some add_referral i ri) by done.
      intros U. rewrite referral_count_insert, (invitees_update_size U i ri) by done.
      specialize (Hmid U). destruct (decide (i = U)) as [<-|HiU].
      * unfold referral_count in Hmid. rewrite Hi in Hmid. simpl. lia.
      * lia.
    + rewrite alter_None by done. intros U. specialize (Hmid U).
      destruct (decide (i = U)); lia.
  - intros U. rewrite referral_count_insert, (invitees_update_size U i r) by done.
    case_decide as HU; [|apply Hcon]. subst U. simpl.
    specialize (Hcon i). unfold referral_count in Hcon. by rewrite Hi in Hcon.
Qed.

Lemma run_never_over_credited (cs : list Call) (w : World) :
  never_over_credited (users w) → never_over_credited (users (run cs w)).
Proof.
  revert w. induction cs as [|c cs IH]; intros w Hno; simpl; [done|].
  apply IH. apply (effect_never_over_credited c w (call c w)); [apply call_effect | done].
Qed.

(** X10.  Whatever is called, with or without rows for the ids passed, no
    counter becomes negative or exceeds the number of rows that name its
    user as inviter. *)
Theorem never_over_credited_kept (cs : list Call) (w : World) :
  never_over_credited (users w) → never_over_credited (users (run cs w)).
Proof. apply run_never_over_credited. Qed.

Lemma never_over_credited_kept_witness :
  let cs := [AddUser no_fault 1; ProcessReferral no_fault 1 7;
             AddUser no_fault 7; AddUser no_fault 2;
             ProcessReferral no_fault 2 7] in
  never_over_credited (users (run cs init_db))
  ∧ referral_count 7 (users (run cs init_db)) = 1%Z
  ∧ size (invitees 7 (users (run cs init_db))) = 2.
Proof.
  intros cs. split; [|split; vm_compute; reflexivity].
  apply never_over_credited_kept. intros U.
  change (users init_db) with (∅ : gmap Z Row). unfold referral_count, invitees.
  rewrite lookup_empty, map_filter_empty, map_size_empty. lia.
Defined.

Lemma referral_count_grows (c : Call) (w : World) (U : Z) :
  never_over_credited (users w) →
  (referral_count U (users w) ≤ referral_count U (users (call c w)))%Z.
Proof.
  intros Hno. unfold referral_count at 1.
  destruct (users w !! U) as [r|] eqn:HU.
  - destruct (effect_row c w (call c w) U r (call_effect c w) HU)
      as (r' & HU' & _ & Href & _).
    unfold referral_count. rewrite HU'. lia.
  - pose proof (effect_never_over_credited c w (call c w) (call_effect c w) Hno U). lia.
Qed.

Lemma effect_sent (c : Call) (w w' : World) (U : Z) :
  effect w c w' → U ∈ sent w' →
  U ∈ sent w ∨ (REFERRAL_GOAL ≤ referral_count U (users w'))%Z.
Proof.
  intros Heff HU.
  destruct Heff as [c|f u Hu|f u i r Hu Hr Hne|f ok i r Hi Hn Hb|f i r Hi Hn Hb];
    simpl in *; auto.
  - apply elem_of_cons in HU as [->|?]; [right|by left].
    unfold referral_count. by rewrite Hi.
  - apply elem_of_cons in HU as [->|?]; [right|by left].
    unfold referral_count. by rewrite lookup_insert_eq.
Qed.

Lemma run_sent_reached_goal (cs : list Call) (w : World) :
  never_over_credited (users w) →
  sent_reached_goal w →
  sent_reached_goal (run cs w).
Proof.
  revert w. induction cs as [|c cs IH]; intros w Hno Hsent; simpl; [done|].
  apply IH; [apply (effect_never_over_credited c w (call c w)); [apply call_effect | done]|].
  intros U HU.
  destruct (effect_sent c w (call c w) U (call_effect c w) HU) as [Hold|Hnew]; [|done].
  pose proof (referral_count_grows c w U Hno). specialize (Hsent U Hold). lia.
Qed.

(** X11.  Along any sequence of calls, every user [bot.send_message] was called
    for keeps a counter of at least [REFERRAL_GOAL]. *)
Theorem sent_reached_goal_kept (cs : list Call) (w : World) :
  never_over_credited (users w) →
  sent_reached_goal w →
  sent_reached_goal (run cs w).
Proof. apply run_sent_reached_goal. Qed.

Lemma sent_reached_goal_kept_witness :
  let cs := ten_arrivals ++ [CheckGoal no_fault false 100; CheckGoal no_fault true 100;
                             CheckGoal no_fault true 5] in
  sent (run cs init_db) = [100%Z; 100%Z]
  ∧ sent_reached_goal (run cs init_db).
Proof.
  intros cs. split; [vm_compute; reflexivity|].
  apply sent_reached_goal_kept.
  - intros U. change (users init_db) with (∅ : gmap Z Row).
    unfold referral_count, invitees.
    rewrite lookup_empty, map_filter_empty, map_size_empty. lia.
  - intros U HU. change (sent init_db) with (@nil Z) in HU. by apply elem_of_nil in HU.
Defined.

(** ** One message per goal *)

Lemma effect_quiet (c : Call) (w w' : World) :
  effect w c w' →
  (∀ f ok i, c ≠ CheckGoal f ok i) →
  sent w' = sent w ∧ ∀ U, notified U (users w') = notified U (users w).
Proof.
  intros Heff Hc.
  destruct Heff as [c|f u Hu|f u i r Hu Hr Hne|f ok i r Hi Hn Hb|f i r Hi Hn Hb];
    simpl; try done.
  - split; [done|]. intros U. rewrite notified_insert.
    destruct (decide (u = U)) as [<-|?]; [|done].
    unfold notified. by rewrite Hu.
  - split; [done|]. intros U. by apply notified_attribute.
  - by destruct (Hc f ok i).
  - by destruct (Hc f true i).
Qed.

Lemma call_exactly_once (c : Call) (w : World) :
  reliable c → exactly_once w → exactly_once (call c w).
Proof.
  intros Hrel Hone.
  destruct c as [f u|f u i|f ok i|f u].
  1,2,4: match goal with
         | |- exactly_once (call ?c ?w0) =>
             destruct (effect_quiet c w0 (call c w0) (call_effect c w0)) as [Hs Hn];
               [done|];
             intros U; unfold attempts; rewrite Hs, Hn; apply Hone
         end.
  destruct Hrel as (-> & Hf1 & Hf2). simpl.
  rewrite check_and_notify_on_goal_eq, Hf1, Hf2. simpl.
  destruct (f 0%nat); [done|]. unfold select_referrals_notified.
  destruct (users w !! i) as [r|] eqn:Hi; simpl; [|done].
  destruct (goal_pending _ _) eqn:Hp; [|done].
  apply goal_pending_true in Hp as [Hn Hb]. apply goal_notified_false in Hb.
  unfold update_goal_achieved_notified. rewrite (alter_Some _ _ r) by done.
  intros U. specialize (Hone U). unfold attempts in *. simpl.
  rewrite notified_insert.
  destruct (Z.eq_dec i U) as [<-|HiU].
  - rewrite decide_True by done. simpl.
    unfold notified in Hone. rewrite Hi, Hb in Hone. by rewrite Hone.
  - by rewrite decide_False.
Qed.

Lemma run_exactly_once (cs : list Call) (w : World) :
  Forall reliable cs →
  exactly_once w →
  exactly_once (run cs w).
Proof.
  revert w. induction cs as [|c cs IH]; intros w Hrel Hone; simpl; [done|].
  apply Forall_cons in Hrel as [Hc Hcs].
  apply IH; [done|]. by apply call_exactly_once.
Qed.

(** X12.  When every goal check of a run delivers its message and stores its
    flag, [bot.send_message] has been called exactly once for each user
    whose flag is true and never for anybody else. *)
Theorem notified_exactly_once (cs : list Call) (w : World) :
  Forall reliable cs →
  exactly_once w →
  exactly_once (run cs w).
Proof. apply run_exactly_once. Qed.

Lemma notified_exactly_once_witness :
  let cs := ten_arrivals
            ++ [CheckGoal no_fault true 100]
            ++ arrival 11 100 ++ [CheckGoal no_fault true 100]
            ++ arrival 12 100 ++ [CheckGoal no_fault true 100] in
  exactly_once (run cs init_db)
  ∧ referral_count 100 (users (run cs init_db)) = 12%Z
  ∧ sent (run cs init_db) = [100%Z].
Proof.
  intros cs. split; [|split; vm_compute; reflexivity].
  apply notified_exactly_once.
  - unfold cs, ten_arrivals, arrival. simpl. repeat constructor.
  - intros U. reflexivity.
Defined.

(** * The handlers *)

Lemma run_app (cs1 cs2 : list Call) (w : World) :
  run (cs1 ++ cs2) w = run cs2 (run cs1 w).
Proof. revert w. induction cs1 as [|c cs1 IH]; intros w; simpl; [done|]. apply IH. Qed.

Lemma preconditions_app (cs1 cs2 : list Call) (w : World) :
  preconditions cs1 w → preconditions cs2 (run cs1 w) → preconditions (cs1 ++ cs2) w.
Proof.
  revert w. induction cs1 as [|c cs1 IH]; intros w H1 H2; simpl in *; [done|].
  destruct H1 as [Hc H1]. split; [done|]. by apply IH.
Qed.

Lemma run_consistent (cs : list Call) (w : World) :
  consistent (users w) → preconditions cs w → consistent (users (run cs w)).
Proof.
  revert w. induction cs as [|c cs IH]; intros w Hcon Hpre; simpl in *; [done|].
  destruct Hpre as [Hc Hcs]. apply IH; [|done].
  apply (effect_consistent c w (call c w)); [apply call_effect | done | done].
Qed.

Lemma consistent_never_over_credited (t : gmap Z Row) :
  consistent t → never_over_credited t.
Proof. intros Hcon U. rewrite (Hcon U). lia. Qed.

Lemma insert_or_ignore_lookup (u k : Z) (t : gmap Z Row) :
  insert_or_ignore u t !! k
  = if decide (u = k) then Some (default default_row (t !! u)) else t !! k.
Proof.
  unfold insert_or_ignore. destruct (t !! u) as [r|] eqn:Hu; simpl.
  - case_decide; [by subst|done].
  - case_decide; [subst; by rewrite lookup_insert_eq|by rewrite lookup_insert_ne].
Qed.

Lemma add_user_returns (f : faults) (u : Z) (w w' : World) :
  add_user f u w = (Returns (), w') →
  is_Some (users w' !! u) ∧ ∀ k, is_Some (users w !! k) → is_Some (users w' !! k).
Proof.
  rewrite add_user_eq. destruct (f 0%nat || f 1%nat); [done|].
  intros [= <-]. simpl. split.
  - rewrite insert_or_ignore_lookup, decide_True by done. by eexists.
  - intros k Hk. rewrite insert_or_ignore_lookup. case_decide; [by eexists|done].
Qed.

(** ** [handle_start] as a run of database calls *)

(** The world [handle_start] leaves behind is that of the database calls it
    got to make; the two Telegram calls at its end change nothing. *)
Lemma handle_start_world (e : StartEnv) (u : Z) (args : StartArgs) (w : World) :
  (handle_start e u args w).2 =
    match add_user (plan_user e) u w with
    | (Raises, w1) => w1
    | (Returns _, w1) =>
        match args with
        | Digits i =>
            if negb (i =? u)%Z then
              match add_user (plan_inviter e) i w1 with
              | (Raises, w2) => w2
              | (Returns _, w2) =>
                  match process_referral (plan_referral e) u i w2 with
                  | (Returns true, w3) =>
                      (check_and_notify_on_goal (plan_check e) (delivers e) i w3).2
                  | (_, w3) => w3
                  end
              end
            else w1
        | _ => w1
        end
    end.
Proof.
  unfold handle_start, and_then, pure, raise, external.
  destruct (add_user (plan_user e) u w) as [[[]|] w1]; [|done].
  destruct args as [|i|]; simpl.
  - by destruct (link_made e).
  - destruct (negb (i =? u)%Z); simpl; [|by destruct (link_made e)].
    destruct (add_user (plan_inviter e) i w1) as [[[]|] w2]; [|done].
    destruct (process_referral (plan_referral e) u i w2) as [[[]|] w3]; simpl.
    + destruct (check_and_notify_on_goal _ _ i w3) as [[[]|] w4]; simpl; [|done].
      by destruct (link_made e).
    + by destruct (link_made e).
    + done.
  - done.
Qed.

Lemma handle_start_run (e : StartEnv) (u : Z) (args : StartArgs) (w : World) :
  ∃ cs : list Call,
    (handle_start e u args w).2 = run cs w
    ∧ preconditions cs w
    ∧ (reliable_update (StartCommand e u args) → Forall reliable cs).
Proof.
  rewrite handle_start_world.
  destruct (add_user (plan_user e) u w) as [[[]|] w1] eqn:H1.
  2: { exists [AddUser (plan_user e) u]. simpl. rewrite H1. by repeat constructor. }
  assert (w1 = call (AddUser (plan_user e) u) w) as Hw1 by (simpl; by rewrite H1).
  destruct (add_user_returns _ _ _ _ H1) as [Hu1 _].
  assert (∃ cs, w1 = run cs w ∧ preconditions cs w ∧ Forall reliable cs) as Hstop.
  { exists [AddUser (plan_user e) u]. simpl. rewrite H1. by repeat constructor. }
  destruct args as [|i|]; [by destruct Hstop as (cs & ? & ? & ?); exists cs| |
                           by destruct Hstop as (cs & ? & ? & ?); exists cs].
  destruct (negb (i =? u)%Z);
    [|by destruct Hstop as (cs & ? & ? & ?); exists cs].
  destruct (add_user (plan_inviter e) i w1) as [[[]|] w2] eqn:H2.
  2: { exists [AddUser (plan_user e) u; AddUser (plan_inviter e) i]. simpl.
       rewrite H1. simpl. rewrite H2. by repeat constructor. }
  destruct (add_user_returns _ _ _ _ H2) as [Hi2 Hkeep2].
  assert (precondition (ProcessReferral (plan_referral e) u i) w2) as Hpre
    by (split; [by apply Hkeep2|done]).
  destruct (process_referral (plan_referral e) u i w2) as [[[]|] w3] eqn:H3.
  - exists [AddUser (plan_user e) u; AddUser (plan_inviter e) i;
            ProcessReferral (plan_referral e) u i;
            CheckGoal (plan_check e) (delivers e) i].
    simpl. rewrite H1. simpl. rewrite H2. simpl. rewrite H3. simpl.
    split; [done|]. split; [done|]. intros Hrel.
    repeat (constructor; [by simpl|]). constructor.
  - exists [AddUser (plan_user e) u; AddUser (plan_inviter e) i;
            ProcessReferral (plan_referral e) u i].
    simpl. rewrite H1. simpl. rewrite H2. simpl. rewrite H3. simpl.
    split; [done|]. split; [done|]. intros Hrel.
    repeat (constructor; [by simpl|]). constructor.
  - exists [AddUser (plan_user e) u; AddUser (plan_inviter e) i;
            ProcessReferral (plan_referral e) u i].
    simpl. rewrite H1. simpl. rewrite H2. simpl. rewrite H3. simpl.
    split; [done|]. split; [done|]. intros Hrel.
    repeat (constructor; [by simpl|]). constructor.
Qed.

Lemma handle_progress_world (f : faults) (ok : bool) (u : Z) (w : World) :
  (handle_progress f ok u w).2 = w.
Proof.
  unfold handle_progress, and_then, pure, external. rewrite get_user_referrals_eq.
  destruct (f 0%nat); [done|]. by destruct ok.
Qed.

Lemma serve_run (us : list Update) (w : World) :
  ∃ cs : list Call,
    serve us w = run cs w
    ∧ preconditions cs w
    ∧ (Forall reliable_update us → Forall reliable cs).
Proof.
  revert w. induction us as [|u us IH]; intros w; simpl.
  - exists []. by repeat constructor.
  - assert (∃ cs1, handle u w = run cs1 w ∧ preconditions cs1 w
                   ∧ (reliable_update u → Forall reliable cs1)) as (cs1 & H1 & P1 & R1).
    { destruct u as [e x args|f ok x]; simpl.
      - apply handle_start_run.
      - exists []. rewrite handle_progress_world. by repeat constructor. }
    destruct (IH (handle u w)) as (cs2 & H2 & P2 & R2).
    exists (cs1 ++ cs2). rewrite run_app, <- H1. split; [done|]. split.
    + apply preconditions_app; [done|]. by rewrite <- H1.
    + intros Hrel. apply Forall_cons in Hrel as [Hu Hus]. apply Forall_app. auto.
Qed.

(** ** The bot as a whole *)

Lemma sent_reached_goal_init : sent_reached_goal init_db.
Proof. intros U HU. simpl in HU. by apply elem_of_nil in HU. Qed.

Lemma exactly_once_init : exactly_once init_db.
Proof. intros U. reflexivity. Qed.

Lemma serve_consistent (us : list Update) : consistent (users (serve us init_db)).
Proof.
  destruct (serve_run us init_db) as (cs & -> & Hpre & _).
  apply run_consistent; [apply consistent_empty | done].
Qed.

(** X13.  Whatever [/start] and [/progress] updates arrive, handled one after the
    other on a fresh database, and whichever storage or Telegram calls fail
    on the way: every user's counter equals the number of rows that name
    the user as inviter, nobody is their own inviter, and every user a goal
    message was sent to is named as inviter by at least [REFERRAL_GOAL]
    rows. *)
Theorem bot_keeps_books (us : list Update) :
  consistent (users (serve us init_db))
  ∧ no_self_referral (users (serve us init_db))
  ∧ ∀ U : Z, U ∈ sent (serve us init_db) →
      (REFERRAL_GOAL ≤ Z.of_nat (size (invitees U (users (serve us init_db)))))%Z.
Proof.
  pose proof (serve_consistent us) as Hcon.
  destruct (serve_run us init_db) as (cs & Hcs & Hpre & _). rewrite Hcs in *.
  split; [done|]. split.
  - apply run_no_self. intros U r. simpl. by rewrite lookup_empty.
  - intros U HU. rewrite <- Hcon.
    apply (run_sent_reached_goal cs init_db); [|apply sent_reached_goal_init|done].
    apply consistent_never_over_credited, consistent_empty.
Qed.

Lemma bot_keeps_books_witness :
  let us := map (λ u, StartCommand calm u (Digits 100))
              [1; 2; 3; 4; 5; 6; 7; 8; 9; 10; 11]%Z
            ++ [ProgressCommand no_fault true 100] in
  sent (serve us init_db) = [100%Z]
  ∧ (REFERRAL_GOAL ≤ Z.of_nat (size (invitees 100 (users (serve us init_db)))))%Z.
Proof.
  intros us.
  assert (sent (serve us init_db) = [100%Z]) as Hs by (vm_compute; reflexivity).
  split; [exact Hs|].
  destruct (bot_keeps_books us) as (_ & _ & H). apply H.
  rewrite Hs. apply elem_of_cons. by left.
Defined.

(** X14.  When, in addition, every goal message is delivered and every flag
    write succeeds, the goal message has gone out exactly once to each user
    whose flag is set and never to anybody else. *)
Theorem bot_notifies_once (us : list Update) :
  Forall reliable_update us →
  exactly_once (serve us init_db).
Proof.
  intros Hrel. destruct (serve_run us init_db) as (cs & -> & _ & Hcs).
  apply run_exactly_once; [by apply Hcs | apply exactly_once_init].
Qed.

Lemma bot_notifies_once_witness :
  let us := map (λ u, StartCommand calm u (Digits 100))
              [1; 2; 3; 4; 5; 6; 7; 8; 9; 10; 11; 12; 3; 100]%Z in
  exactly_once (serve us init_db)
  ∧ sent (serve us init_db) = [100%Z]
  ∧ referral_count 100 (users (serve us init_db)) = 12%Z.
Proof.
  intros us. split; [|split; vm_compute; reflexivity].
  apply bot_notifies_once. unfold us. simpl.
  repeat (constructor; [by simpl|]). constructor.
Defined.

Lemma insert_or_ignore_present (u : Z) (r : Row) (t : gmap Z Row) :
  t !! u = Some r → insert_or_ignore u t = t.
Proof. intros Hu. unfold insert_or_ignore. by rewrite Hu. Qed.

Lemma referral_count_insert_or_ignore (U i : Z) (t : gmap Z Row) :
  referral_count U (insert_or_ignore i t) = referral_count U t.
Proof.
  unfold referral_count. rewrite insert_or_ignore_lookup.
  case_decide as Hi; [|done]. subst. by destruct (t !! U).
Qed.

(** X15.  A user who already has an inviter gains and gives nothing by opening
    any start link again: whatever the link and whatever fails, the user's
    row, every counter and the list of goal messages are as before. *)
Theorem start_again_changes_no_credit (e : StartEnv) (u b : Z) (args : StartArgs)
    (w : World) (r : Row) :
  users w !! u = Some r →
  invited_by r = Some b →
  users (handle_start e u args w).2 !! u = Some r
  ∧ (∀ U : Z, referral_count U (users (handle_start e u args w).2)
              = referral_count U (users w))
  ∧ sent (handle_start e u args w).2 = sent w.
Proof.
  intros Hu Hb. rewrite handle_start_world, add_user_eq.
  rewrite (insert_or_ignore_present u r) by done. rewrite world_eta.
  assert (users w !! u = Some r
          ∧ (∀ U, referral_count U (users w) = referral_count U (users w))
          ∧ sent w = sent w) as Hsame by done.
  destruct (plan_user e 0%nat || plan_user e 1%nat); [done|].
  destruct args as [|i|]; try done.
  destruct (negb (i =? u)%Z) eqn:Hiu; [|done].
  apply negb_true_iff, Z.eqb_neq in Hiu.
  rewrite add_user_eq.
  destruct (plan_inviter e 0%nat || plan_inviter e 1%nat); [done|].
  rewrite (process_referral_rejects_taken _ u i _ r b);
    [ | simpl; by rewrite insert_or_ignore_lookup, decide_False | done ].
  assert (users {| users := insert_or_ignore i (users w); sent := sent w |} !! u = Some r
          ∧ (∀ U, referral_count U
                    (users {| users := insert_or_ignore i (users w); sent := sent w |})
                  = referral_count U (users w))
          ∧ sent {| users := insert_or_ignore i (users w); sent := sent w |} = sent w)
    as Hadded.
  { simpl. split; [by rewrite insert_or_ignore_lookup, decide_False|].
    split; [|done]. intros U. apply referral_count_insert_or_ignore. }
  by destruct (plan_referral e 0%nat).
Qed.

Lemma start_again_changes_no_credit_witness :
  let w := serve [StartCommand calm 1 (Digits 2)] init_db in
  users (handle_start calm 1 (Digits 3) w).2 !! 1%Z = Some (mkRow (Some 2%Z) 0 0)
  ∧ referral_count 3 (users (handle_start calm 1 (Digits 3) w).2) = 0%Z.
Proof.
  intros w.
  destruct (start_again_changes_no_credit calm 1 2 (Digits 3) w (mkRow (Some 2%Z) 0 0))
    as (H1 & H2 & _); [vm_compute; reflexivity | reflexivity | ].
  split; [exact H1|]. rewrite H2. vm_compute. reflexivity.
Defined.

(** X16.  After any history, and with storage and Telegram working,
    [/progress] reports exactly the number of rows that name the asking
    user as inviter: at or above [REFERRAL_GOAL] the congratulation with
    that number, below it the number together with how many are missing;
    the world is left as it is. *)
Theorem progress_reports_invitees (us : list Update) (user_id : Z) :
  let w := serve us init_db in
  let n := Z.of_nat (size (invitees user_id (users w))) in
  handle_progress no_fault true user_id w =
    (Returns (if (REFERRAL_GOAL <=? n)%Z then GoalReached n
              else StillToInvite n (REFERRAL_GOAL - n)), w).
Proof.
  intros w n.
  unfold handle_progress, and_then, pure, external. rewrite get_user_referrals_eq.
  simpl. pose proof (serve_consistent us user_id) as Hcon.
  fold w in Hcon. by rewrite Hcon.
Qed.

(** ** A credited arrival *)



